(** * A model of [sandbox_api.py]: the Firejail sandbox HTTP handler

    The handler [run_code] and the runner [_run_in_firejail] are Python
    coroutines: straight-line code that suspends at each [await] and performs
    effects on the host (tmpfs directories, child processes, the admission
    semaphore [POOL]).  They are embedded as finite coroutine trees over an
    explicit set of host operations; one interpreter runs a single request
    against a [World], another interleaves several requests that share the
    [World].

    Python [str] values are Rocq strings holding the text's UTF-8 encoding;
    a [str] may hold code points that have no UTF-8 encoding (a lone
    surrogate, as the JSON escape of one gives), and these are held as the
    three bytes they would take: such a text is a string that is not
    well-formed UTF-8, and [.encode()] raises on it.  [bytes] values are
    lists of bytes.  The two [print] calls of the runner write to the server
    log only and are left out. *)

From Stdlib Require Import ZArith QArith Strings.Byte.
From stdpp Require Import base option list gmap strings stringmap.

Local Open Scope string_scope.
Local Open Scope Z_scope.

(** ** Text and bytes *)

Definition newline : string := String (Ascii.ascii_of_nat 10) "".

Definition bytes := list byte.

(** The bytes [str.encode()] gives for a text that encodes. *)
Definition encode (s : string) : bytes := String.list_byte_of_string s.

(** Strict UTF-8 well-formedness, as checked by [bytes.decode()]: shortest
    form only, no surrogates, nothing above U+10FFFF. *)
Definition in_range (lo hi b : N) : bool := ((lo <=? b) && (b <=? hi))%N.

Definition cont (b : N) : bool := in_range 128 191 b.

Fixpoint utf8_valid (l : list N) : bool :=
  match l with
  | [] => true
  | b0 :: l1 =>
    if (b0 <=? 127)%N then utf8_valid l1 else
    match l1 with
    | [] => false
    | b1 :: l2 =>
      if in_range 194 223 b0 then cont b1 && utf8_valid l2 else
      match l2 with
      | [] => false
      | b2 :: l3 =>
        if (b0 =? 224)%N then in_range 160 191 b1 && cont b2 && utf8_valid l3
        else if in_range 225 236 b0 then cont b1 && cont b2 && utf8_valid l3
        else if (b0 =? 237)%N then in_range 128 159 b1 && cont b2 && utf8_valid l3
        else if in_range 238 239 b0 then cont b1 && cont b2 && utf8_valid l3
        else
        match l3 with
        | [] => false
        | b3 :: l4 =>
          if (b0 =? 240)%N
          then in_range 144 191 b1 && cont b2 && cont b3 && utf8_valid l4
          else if in_range 241 243 b0
          then cont b1 && cont b2 && cont b3 && utf8_valid l4
          else if (b0 =? 244)%N
          then in_range 128 143 b1 && cont b2 && cont b3 && utf8_valid l4
          else false
        end
      end
    end
  end.

(** [bytes.decode()]: [None] stands for [UnicodeDecodeError]. *)
Definition decode (b : bytes) : option string :=
  if utf8_valid (Byte.to_N <$> b) then Some (String.string_of_list_byte b) else None.

(** Whether a text encodes: [str.encode()] and a write to a text file raise
    [UnicodeEncodeError] on a text that does not. *)
Definition encodable (s : string) : bool := utf8_valid (Byte.to_N <$> encode s).

(** ** Pydantic models *)

Inductive RunStatus := Success | Failed | SandboxError.

Inductive CommandRunStatus := Finished | Error | TimeLimitExceeded.

Record CommandRunResult := {
  status : CommandRunStatus;
  execution_time : option Q;
  return_code : option Z;
  stdout : option string;
  stderr : option string
}.

Record RunCodeRequest := {
  code : string;
  stdin : string;
  language : string;
  compile_timeout : Q;
  run_timeout : Q
}.

Record RunCodeResponse := {
  resp_status : RunStatus;
  message : string;
  compile_result : option CommandRunResult;
  run_result : option CommandRunResult;
  executor_pod_name : option string;
  files : gmap string string
}.

(** What [_run_in_firejail] hands back as its second component: a plain dict
    with the three keys [status], [stdout], [stderr] on the timeout path, a
    [CommandRunResult] otherwise. *)
Inductive run_payload :=
| AsDict (st : CommandRunStatus) (out err : string)
| AsModel (r : CommandRunResult).

(** Field validation of [run_result] when [RunCodeResponse] is built: a dict
    is read into the model, absent optional keys default to [None]. *)
Definition validate_run_result (p : run_payload) : CommandRunResult :=
  match p with
  | AsDict st out err =>
      {| status := st; execution_time := None; return_code := None;
         stdout := Some out; stderr := Some err |}
  | AsModel r => r
  end.

(** ** Exceptions *)

Inductive exn :=
| HTTPException (status_code : Z) (detail : string)
| TimeoutError
| OSError (what : string)
| ProcessLookupError
| UnicodeDecodeError
| UnicodeEncodeError.

#[global] Instance exn_eq_dec : EqDecision exn.
Proof. solve_decision. Defined.

(** ** Host operations

    Every effect of the program is one of these operations.  [Communicate]
    is [asyncio.wait_for(proc.communicate(input), timeout)] followed by the
    read of [proc.returncode]; [Rmtree] is [shutil.rmtree] with
    [ignore_errors=True]; [Acquire] and [Release] are the entry and exit of
    [async with POOL]. *)

Definition pid := nat.

Inductive op :=
| Mkdtemp (prefix dir : string)
| WriteText (dir name data : string)
| Environ
| CreateSubprocessExec (cmd : list string) (cwd : string) (env : gmap string string)
| Communicate (p : pid) (input : option bytes) (timeout : Q)
| Kill (p : pid)
| Wait (p : pid)
| Rmtree (dir : string)
| Acquire
| Release.

Definition answer_of (o : op) : Type :=
  match o with
  | Mkdtemp _ _ => string
  | WriteText _ _ _ => unit
  | Environ => gmap string string
  | CreateSubprocessExec _ _ _ => pid
  | Communicate _ _ _ => (bytes * bytes * Z)%type
  | Kill _ => unit
  | Wait _ => Z
  | Rmtree _ => unit
  | Acquire => unit
  | Release => unit
  end.

(** ** Coroutines *)

Inductive coro (A : Type) : Type :=
| Ret (a : A)
| Raise (e : exn)
| Vis (o : op) (k : exn + answer_of o -> coro A).

Arguments Ret {A} a.
Arguments Raise {A} e.
Arguments Vis {A} o k.

Fixpoint bind {A B} (m : coro A) (f : A -> coro B) : coro B :=
  match m with
  | Ret a => f a
  | Raise e => Raise e
  | Vis o k => Vis o (fun r => bind (k r) f)
  end.

#[global] Instance coro_ret : MRet coro := @Ret.
#[global] Instance coro_bind : MBind coro := fun A B f m => bind m f.

(** Perform one operation; an exception it reports is raised. *)
Definition perform (o : op) : coro (answer_of o) :=
  Vis o (fun r => match r with inl e => Raise e | inr x => Ret x end).

(** The value of an expression that may raise. *)
Definition eval {A} (r : exn + A) : coro A :=
  match r with inl e => Raise e | inr x => Ret x end.

(** [try: m  except TimeoutError: h] *)
Fixpoint try_except_timeout {A} (m h : coro A) : coro A :=
  match m with
  | Ret a => Ret a
  | Raise e => if decide (e = TimeoutError) then h else Raise e
  | Vis o k => Vis o (fun r => try_except_timeout (k r) h)
  end.

(** [try: m  finally: h] *)
Fixpoint try_finally {A} (m : coro A) (h : coro unit) : coro A :=
  match m with
  | Ret a => h ;; Ret a
  | Raise e => h ;; Raise e
  | Vis o k => Vis o (fun r => try_finally (k r) h)
  end.

(** [async with POOL: body] *)
Definition async_with_POOL {A} (body : coro A) : coro A :=
  perform Acquire ;; try_finally body (perform Release).

(** ** The program *)

(** [whitelist] of step 3. *)
Definition whitelist : list string :=
  ["PATH"; "LANG"; "LC_ALL"; "PYTHONIOENCODING"; "TERM"].

(** [{k: os.environ[k] for k in whitelist if k in os.environ}] *)
Definition clean_env (environ : gmap string string) : gmap string string :=
  foldl (fun d k => match environ !! k with
                    | Some v => <[k := v]> d
                    | None => d
                    end) ∅ whitelist.

Definition firejail_cmd (workdir src_name : string) : list string :=
  ["firejail"; "--quiet"; "--private=" ++ workdir; "--net=none"; "--";
   "python3"; src_name].

(** [(stdin_data + "\n").encode() if len(stdin_data) > 0 else None]; the
    [.encode()] raises on a text that does not encode. *)
Definition input_bytes (stdin_data : string) : exn + option bytes :=
  if (0 <? String.length stdin_data)%nat
  then if encodable (stdin_data ++ newline)
       then inr (Some (encode (stdin_data ++ newline)))
       else inl UnicodeEncodeError
  else inr None.

(** The runner.  [input_bytes] is computed inside the [try], whose [except]
    clause catches [TimeoutError] only.  The early [return] of the [except]
    branch is the [inl] of [r]; the two [decode()] calls sit in the final
    [return] expression, after the directory has been removed. *)
Definition _run_in_firejail (code : string) (timeout : Q) (stdin_data : string)
  : coro (RunStatus * run_payload) :=
  workdir ← perform (Mkdtemp "fj_" "/dev/shm");
  let src_name := "main.py" in
  perform (WriteText workdir src_name code) ;;
  let cmd := firejail_cmd workdir src_name in
  environ ← perform Environ;
  proc ← perform (CreateSubprocessExec cmd workdir (clean_env environ));
  r ← try_except_timeout
         (input ← eval (input_bytes stdin_data);
          res ← (perform (Communicate proc input timeout) : coro (bytes * bytes * Z));
          Ret (inr res))
         (perform (Kill proc) ;;
          perform (Wait proc) ;;
          perform (Rmtree workdir) ;;
          Ret (inl (Failed, AsDict TimeLimitExceeded "" ("Timeout" ++ newline))));
  match r with
  | inl early => Ret early
  | inr (stdout_b, stderr_b, returncode) =>
      let command_status := if returncode =? 0 then Finished else Error in
      let status := if returncode =? 0 then Success else Failed in
      perform (Rmtree workdir) ;;
      match decode stdout_b with
      | None => Raise UnicodeDecodeError
      | Some out =>
        match decode stderr_b with
        | None => Raise UnicodeDecodeError
        | Some err =>
            Ret (status,
                 AsModel {| status := command_status;
                            execution_time := Some 0%Q;
                            return_code := Some returncode;
                            stdout := Some out;
                            stderr := Some err |})
        end
      end
  end.

(** The handler.  [RunCodeResponse] has no field [created_at]: the keyword
    argument of that name is dropped when the model is built. *)
Definition run_code (req : RunCodeRequest) : coro RunCodeResponse :=
  if negb (String.eqb (language req) "python")
  then Raise (HTTPException 400 "Only Python is supported in this minimal demo.")
  else
    '(command_result, result) ←
       async_with_POOL (_run_in_firejail (code req) (run_timeout req) (stdin req));
    Ret {| resp_status := command_result;
           message := "";
           compile_result := None;
           run_result := Some (validate_run_result result);
           executor_pod_name := Some "";
           files := ∅ |}.

(** ** The host *)

(** How a spawned process behaves when left alone: it exits by itself after
    [duration] seconds ([None]: never), with [exit_code], having written
    [out_bytes] and [err_bytes]. *)
Record Behaviour := {
  duration : option Q;
  exit_code : Z;
  out_bytes : bytes;
  err_bytes : bytes
}.

Inductive ProcState :=
| Running
| Killed                 (* SIGKILL sent, exit status not yet collected *)
| Terminated (rc : Z).   (* exit status collected *)

(** [p_input]: the input [communicate] has set out to write to the stdin
    pipe of the process (the pipe takes it as the process reads), [None]
    while there is none. *)
Record Process := {
  p_cmd : list string;
  p_cwd : string;
  p_env : gmap string string;
  p_behaviour : Behaviour;
  p_input : option bytes;
  p_state : ProcState
}.

(** The part of the host a request cannot see beforehand: the random
    component of the temporary name, whether the spawn succeeds, and what the
    spawned process does. *)
Record Oracle := {
  tmp_name : string;
  spawn_error : option exn;
  behaviour : Behaviour
}.

(** [fs] maps a directory to its files; [permits] is the value of [POOL];
    [trace] lists the operations performed so far, oldest first. *)
Record World := {
  fs : gmap string (gmap string string);
  procs : list Process;
  permits : nat;
  os_environ : gmap string string;
  trace : list op
}.

Definition set_fs (f : gmap string (gmap string string)) (w : World) : World :=
  {| fs := f; procs := procs w; permits := permits w;
     os_environ := os_environ w; trace := trace w |}.

Definition set_procs (ps : list Process) (w : World) : World :=
  {| fs := fs w; procs := ps; permits := permits w;
     os_environ := os_environ w; trace := trace w |}.

Definition set_permits (n : nat) (w : World) : World :=
  {| fs := fs w; procs := procs w; permits := n;
     os_environ := os_environ w; trace := trace w |}.

Definition log (o : op) (w : World) : World :=
  {| fs := fs w; procs := procs w; permits := permits w;
     os_environ := os_environ w; trace := trace w ++ [o] |}.

Definition set_state (st : ProcState) (pr : Process) : Process :=
  {| p_cmd := p_cmd pr; p_cwd := p_cwd pr; p_env := p_env pr;
     p_behaviour := p_behaviour pr; p_input := p_input pr; p_state := st |}.

Definition set_input (i : option bytes) (pr : Process) : Process :=
  {| p_cmd := p_cmd pr; p_cwd := p_cwd pr; p_env := p_env pr;
     p_behaviour := p_behaviour pr; p_input := i; p_state := p_state pr |}.

(** A process as the spawn leaves it: running, nothing written to its stdin. *)
Definition new_process (cmd : list string) (cwd : string)
    (env : gmap string string) (b : Behaviour) : Process :=
  {| p_cmd := cmd; p_cwd := cwd; p_env := env; p_behaviour := b;
     p_input := None; p_state := Running |}.

(** The capacity [POOL] is created with. *)
Definition POOL_capacity : nat := 200.

(** Whether the process exits by itself before the deadline.  A deadline
    that is not positive has elapsed before the wait begins. *)
Definition exits_in_time (b : Behaviour) (timeout : Q) : bool :=
  match duration b with
  | Some d =>
      if Qlt_le_dec 0 timeout
      then if Qlt_le_dec d timeout then true else false
      else false
  | None => false
  end.

(** One operation on the host.  [None]: the caller stays suspended (no permit
    is free; the awaited process never exits).  [Mkdtemp] takes the name made
    of the directory, the prefix and the oracle's random part, or the first
    variation of it that is not in use.  [WriteText] is [Path.write_text] on a
    host whose text files are UTF-8: the file is opened, so created or
    emptied, before the text is encoded, and a text that does not encode
    leaves it empty.  [Communicate] writes its input to the pipe as soon as
    the wait begins, which it does when the deadline is positive; a process
    that outlives the deadline keeps running.  [Kill] sends SIGKILL and
    [Wait] collects the exit status, -9 after a kill. *)
Definition handle (orc : Oracle) (o : op) (w : World)
  : option ((exn + answer_of o) * World) :=
  match o as o' return option ((exn + answer_of o') * World) with
  | Mkdtemp prefix dir =>
      let path :=
        fresh_string_of_set (dir ++ "/" ++ prefix ++ tmp_name orc) (dom (fs w)) in
      Some (inr path, set_fs (<[path := ∅]> (fs w)) w)
  | WriteText dir name data =>
      match fs w !! dir with
      | Some d =>
          if encodable data
          then Some (inr tt, set_fs (<[dir := <[name := data]> d]> (fs w)) w)
          else Some (inl UnicodeEncodeError,
                     set_fs (<[dir := <[name := ""]> d]> (fs w)) w)
      | None => Some (inl (OSError "No such file or directory"), w)
      end
  | Environ => Some (inr (os_environ w), w)
  | CreateSubprocessExec cmd cwd env =>
      match spawn_error orc with
      | Some e => Some (inl e, w)
      | None =>
          let pr := new_process cmd cwd env (behaviour orc) in
          Some (inr (length (procs w)), set_procs (procs w ++ [pr]) w)
      end
  | Communicate p input timeout =>
      match procs w !! p with
      | Some pr =>
          match p_state pr with
          | Running =>
              let b := p_behaviour pr in
              if exits_in_time b timeout
              then
                Some (inr (out_bytes b, err_bytes b, exit_code b),
                      set_procs (<[p := set_state (Terminated (exit_code b))
                                           (set_input input pr)]> (procs w)) w)
              else
                let written := if Qlt_le_dec 0 timeout then input else p_input pr in
                Some (inl TimeoutError,
                      set_procs (<[p := set_input written pr]> (procs w)) w)
          | _ => Some (inl ProcessLookupError, w)
          end
      | None => Some (inl ProcessLookupError, w)
      end
  | Kill p =>
      match procs w !! p with
      | Some pr =>
          match p_state pr with
          | Running => Some (inr tt, set_procs (<[p := set_state Killed pr]> (procs w)) w)
          | _ => Some (inl ProcessLookupError, w)
          end
      | None => Some (inl ProcessLookupError, w)
      end
  | Wait p =>
      match procs w !! p with
      | Some pr =>
          match p_state pr with
          | Killed =>
              Some (inr (-9),
                    set_procs (<[p := set_state (Terminated (-9)) pr]> (procs w)) w)
          | Terminated rc => Some (inr rc, w)
          | Running =>
              match duration (p_behaviour pr) with
              | Some _ =>
                  let rc := exit_code (p_behaviour pr) in
                  Some (inr rc,
                        set_procs (<[p := set_state (Terminated rc) pr]> (procs w)) w)
              | None => None
              end
          end
      | None => Some (inl ProcessLookupError, w)
      end
  | Rmtree dir => Some (inr tt, set_fs (delete dir (fs w)) w)
  | Acquire =>
      match permits w with
      | O => None
      | S n => Some (inr tt, set_permits n w)
      end
  | Release => Some (inr tt, set_permits (S (permits w)) w)
  end.

(** ** One request, run to its end *)

Inductive outcome (A : Type) :=
| Returned (a : A)
| Raised (e : exn)
| Suspended.

Arguments Returned {A} a.
Arguments Raised {A} e.
Arguments Suspended {A}.

Fixpoint exec {A} (orc : Oracle) (m : coro A) (w : World) : outcome A * World :=
  match m with
  | Ret a => (Returned a, w)
  | Raise e => (Raised e, w)
  | Vis o k =>
      match handle orc o w with
      | None => (Suspended, w)
      | Some (r, w') => exec orc (k r) (log o w')
      end
  end.

(** A host on which nothing has happened yet. *)
Definition fresh_world (env : gmap string string) : World :=
  {| fs := ∅; procs := []; permits := POOL_capacity; os_environ := env; trace := [] |}.

(** The operations performed between two states of the host. *)
Definition events_since (w w' : World) : list op :=
  drop (length (trace w)) (trace w').

Definition is_mkdtemp (o : op) : bool :=
  match o with Mkdtemp _ _ => true | _ => false end.

Definition is_rmtree_of (dir : string) (o : op) : bool :=
  match o with Rmtree d => bool_decide (d = dir) | _ => false end.

Definition is_write_text (o : op) : bool :=
  match o with WriteText _ _ _ => true | _ => false end.

Definition is_acquire (o : op) : bool :=
  match o with Acquire => true | _ => false end.

Definition is_release (o : op) : bool :=
  match o with Release => true | _ => false end.

Definition count (f : op -> bool) (l : list op) : nat := length (List.filter f l).

(** The name [Mkdtemp] picks on host [w]. *)
Definition workdir_of (orc : Oracle) (w : World) : string :=
  fresh_string_of_set ("/dev/shm" ++ "/" ++ "fj_" ++ tmp_name orc) (dom (fs w)).

(** [P] holds of every value the coroutine can return, whatever the host
    answers. *)
Fixpoint returns_only {A} (P : A -> Prop) (m : coro A) : Prop :=
  match m with
  | Ret a => P a
  | Raise _ => True
  | Vis o k => forall r, returns_only P (k r)
  end.

(** ** Several requests at once

    asyncio runs the handlers of concurrent requests on one thread and
    switches between them only at an [await]: the operations of different
    requests interleave, each one atomic.  A task records, besides the rest of
    its coroutine, how many permits of [POOL] it has acquired and not yet
    released.  Any task may take a free permit: the order in which
    [asyncio.Semaphore] wakes its waiters is one of the interleavings. *)

Record Task := {
  t_oracle : Oracle;
  t_held : nat;
  t_rest : coro RunCodeResponse
}.

Definition held_after (o : op) (h : nat) : nat :=
  match o with
  | Acquire => S h
  | Release => pred h
  | _ => h
  end.

Definition task_step (w : World) (t : Task) : option (World * Task) :=
  match t_rest t with
  | Vis o k =>
      match handle (t_oracle t) o w with
      | Some (r, w') =>
          Some (log o w',
                {| t_oracle := t_oracle t;
                   t_held := held_after o (t_held t);
                   t_rest := k r |})
      | None => None
      end
  | _ => None
  end.

Inductive sys_step : World * list Task -> World * list Task -> Prop :=
| sys_step_task w ts i t w' t' :
    ts !! i = Some t ->
    task_step w t = Some (w', t') ->
    sys_step (w, ts) (w', <[i := t']> ts).

Definition new_task (p : Oracle * RunCodeRequest) : Task :=
  {| t_oracle := p.1; t_held := 0; t_rest := run_code p.2 |}.

(** The service right after start-up, with a batch of requests arrived. *)
Definition initial (w : World) (reqs : list (Oracle * RunCodeRequest))
  : World * list Task :=
  (set_permits POOL_capacity w, new_task <$> reqs).

(** A task is inside the gate from its [Acquire] to its [Release]. *)
Definition in_gate (t : Task) : bool := bool_decide (0 < t_held t)%nat.

Definition running (ts : list Task) : nat := length (filter (fun t => in_gate t = true) ts).

(** A task is executing when its next step is an operation of the gated
    block: one of the runner's, or the final [Release]. *)
Definition executing (t : Task) : bool :=
  match t_rest t with
  | Vis o _ => negb (is_acquire o)
  | _ => false
  end.

(** The discipline a coroutine holding [h] permits follows: it acquires only
    when it holds none, releases only what it holds, touches the host only
    while it holds a permit, and ends holding none. *)
Fixpoint gated {A} (h : nat) (m : coro A) : Prop :=
  match m with
  | Ret _ | Raise _ => h = O
  | Vis o k =>
      match o as o' return (exn + answer_of o' -> coro A) -> Prop with
      | Acquire => fun k => h = O /\ gated 1 (k (inr tt))
      | Release => fun k => h = 1%nat /\ gated 0 (k (inr tt))
      | _ => fun k => h = 1%nat /\ forall r, gated h (k r)
      end k
  end.


(** ** What a run leaves behind *)

(** The operations of [_run_in_firejail] up to and including the spawn. *)
Definition spawn_ops (orc : Oracle) (w : World) (c : string) : list op :=
  [Mkdtemp "fj_" "/dev/shm"; WriteText (workdir_of orc w) "main.py" c; Environ;
   CreateSubprocessExec (firejail_cmd (workdir_of orc w) "main.py")
     (workdir_of orc w) (clean_env (os_environ w))].

(** The two operations of [_run_in_firejail] before the spawn is prepared. *)
Definition write_ops (orc : Oracle) (w : World) (c : string) : list op :=
  [Mkdtemp "fj_" "/dev/shm"; WriteText (workdir_of orc w) "main.py" c].

(** What [input_bytes] gives for a text that encodes. *)
Definition stdin_payload (stdin_data : string) : option bytes :=
  if decide (stdin_data = "") then None
  else Some (encode stdin_data ++ ["010"%byte])%list.

(** The process record the spawn of [_run_in_firejail] creates on host [w]. *)
Definition spawned (orc : Oracle) (w : World) : Process :=
  new_process (firejail_cmd (workdir_of orc w) "main.py") (workdir_of orc w)
    (clean_env (os_environ w)) (behaviour orc).

(** Lines 151 to 163 of the runner, for a process that exited with [rc],
    [out] and [err]: the two [decode()] calls and the returned pair. *)
Definition conclude (rc : Z) (out err : bytes) : outcome (RunStatus * run_payload) :=
  match decode out, decode err with
  | Some o, Some e =>
      Returned (if rc =? 0 then Success else Failed,
                AsModel {| status := if rc =? 0 then Finished else Error;
                           execution_time := Some 0%Q;
                           return_code := Some rc;
                           stdout := Some o; stderr := Some e |})
  | _, _ => Raised UnicodeDecodeError
  end.

(** The response [run_code] builds from what the runner returned. *)
Definition respond (p : RunStatus * run_payload) : RunCodeResponse :=
  {| resp_status := p.1;
     message := "";
     compile_result := None;
     run_result := Some (validate_run_result p.2);
     executor_pod_name := Some "";
     files := ∅ |}.

(** What the handler makes of the runner's outcome. *)
Definition answer (o : outcome (RunStatus * run_payload)) : outcome RunCodeResponse :=
  match o with
  | Returned p => Returned (respond p)
  | Raised e => Raised e
  | Suspended => Suspended
  end.

(** The host after the exit of [async with POOL]. *)
Definition released (w : World) : World :=
  log Release (set_permits (S (permits w)) w).

(** The pairs the runner can return. *)
Definition runner_pair (p : RunStatus * run_payload) : Prop :=
  p = (Failed, AsDict TimeLimitExceeded "" ("Timeout" ++ newline)) \/
  exists rc out err,
    p = (if rc =? 0 then Success else Failed,
         AsModel {| status := if rc =? 0 then Finished else Error;
                    execution_time := Some 0%Q; return_code := Some rc;
                    stdout := Some out; stderr := Some err |}).

(** A coroutine that leaves the gate alone. *)
Fixpoint no_gate_ops {A} (m : coro A) : Prop :=
  match m with
  | Ret _ | Raise _ => True
  | Vis o k => is_acquire o = false /\ is_release o = false /\
               forall r, no_gate_ops (k r)
  end.

(** What stays true of the service while requests come and go. *)
Definition gate_invariant (s : World * list Task) : Prop :=
  (permits s.1 + sum_list (t_held <$> s.2) = POOL_capacity)%nat /\
  Forall (fun t => gated (t_held t) (t_rest t)) s.2.

(** ** Sample inputs *)

Definition sample_request : RunCodeRequest :=
  {| code := "print(input())"; stdin := "5"; language := "python";
     compile_timeout := 1%Q; run_timeout := 3%Q |}.

Definition ruby_request : RunCodeRequest :=
  {| code := "puts 1"; stdin := ""; language := "ruby";
     compile_timeout := 1%Q; run_timeout := 3%Q |}.

Definition sample_environ : gmap string string :=
  <["PATH" := "/usr/bin"]> (<["AWS_SECRET_ACCESS_KEY" := "hunter2"]> ∅).

Definition sample_world : World := fresh_world sample_environ.

(** Prints its input and exits 0 after half a second. *)
Definition echo_oracle : Oracle :=
  {| tmp_name := "k3x9q2vd"; spawn_error := None;
     behaviour := {| duration := Some (1 # 2)%Q; exit_code := 0;
                     out_bytes := encode ("5" ++ newline); err_bytes := [] |} |}.

(** Raises an error and exits 1. *)
Definition crash_oracle : Oracle :=
  {| tmp_name := "k3x9q2vd"; spawn_error := None;
     behaviour := {| duration := Some (1 # 10)%Q; exit_code := 1;
                     out_bytes := []; err_bytes := encode "ValueError" |} |}.

(** Sleeps for five seconds. *)
Definition sleepy_oracle : Oracle :=
  {| tmp_name := "k3x9q2vd"; spawn_error := None;
     behaviour := {| duration := Some 5%Q; exit_code := 0;
                     out_bytes := []; err_bytes := [] |} |}.

(** The code point U+D800, a lone surrogate: what the JSON string
    [\ud800] is parsed to. *)
Definition lone_surrogate : string :=
  String (Ascii.ascii_of_nat 237)
    (String (Ascii.ascii_of_nat 160) (String (Ascii.ascii_of_nat 128) "")).

(** A program that sleeps, sent a stdin text that does not encode. *)
Definition surrogate_request : RunCodeRequest :=
  {| code := "import time; time.sleep(60)"; stdin := lone_surrogate;
     language := "python"; compile_timeout := 1%Q; run_timeout := 3%Q |}.


(** A request whose deadline has elapsed before the wait begins. *)
Definition zero_timeout_request : RunCodeRequest :=
  {| code := "print(input())"; stdin := "5"; language := "python";
     compile_timeout := 1%Q; run_timeout := 0%Q |}.


(** firejail is not installed. *)
Definition no_firejail_oracle : Oracle :=
  {| tmp_name := "k3x9q2vd";
     spawn_error := Some (OSError "No such file or directory: 'firejail'");
     behaviour := {| duration := None; exit_code := 0;
                     out_bytes := []; err_bytes := [] |} |}.


(** ** Further definitions: request bodies, serving in sequence *)

(** The JSON body of a request before validation: a key may be absent. *)
Record Body := {
  b_code : option string;
  b_stdin : option string;
  b_language : option string;
  b_compile_timeout : option Q;
  b_run_timeout : option Q
}.

(** Validation of a body against [RunCodeRequest]: [code] is required, the
    other fields take their declared defaults when absent.  [None]: the body
    is refused and the handler is not called.  Values of the wrong type are
    not represented. *)
Definition validate_body (b : Body) : option RunCodeRequest :=
  match b_code b with
  | None => None
  | Some c =>
      Some {| code := c;
              stdin := default "" (b_stdin b);
              language := default "python" (b_language b);
              compile_timeout := default 1%Q (b_compile_timeout b);
              run_timeout := default 3%Q (b_run_timeout b) |}
  end.

(** Requests handled one after the other, each to its end, on the host the
    previous one left. *)
Fixpoint serve (reqs : list (Oracle * RunCodeRequest)) (w : World) : World :=
  match reqs with
  | [] => w
  | (orc, req) :: rest => serve rest (exec orc (run_code req) w).2
  end.


(** A request whose process is left running: it gets as far as the spawn,
    the spawn succeeds, and its stdin text does not encode. *)
Definition orphans (p : Oracle * RunCodeRequest) : bool :=
  String.eqb (language p.2) "python" && encodable (code p.2) &&
  match spawn_error p.1 with Some _ => false | None => true end &&
  negb (encodable (stdin p.2)).

(** Text all of whose bytes are below 128. *)
Definition ascii_only (s : string) : Prop :=
  Forall (fun b => (Byte.to_N b <= 127)%N) (encode s).

(** Writes a byte that is not UTF-8 and exits 0. *)
Definition binary_oracle : Oracle :=
  {| tmp_name := "k3x9q2vd"; spawn_error := None;
     behaviour := {| duration := Some (1 # 10)%Q; exit_code := 0;
                     out_bytes := ["255"%byte]; err_bytes := [] |} |}.

(** A long-running request and a quick one, arrived together. *)
Definition two_requests : list (Oracle * RunCodeRequest) :=
  [(sleepy_oracle, sample_request); (echo_oracle, sample_request)].

(** ** Processes of requests in flight *)

Definition live (pr : Process) : bool :=
  match p_state pr with Terminated _ => false | _ => true end.

(** The processes of the host that have been spawned and not yet reaped. *)
Definition live_pids (w : World) : list pid :=
  filter (fun p => live <$> procs w !! p = Some true) (seq 0 (length (procs w))).

(** The process an operation acts on, with the state the caller takes it to
    be in. *)
Definition op_owned (o : op) : option (pid * ProcState) :=
  match o with
  | Communicate p _ _ | Kill p => Some (p, Running)
  | Wait p => Some (p, Killed)
  | _ => None
  end.

(** The process a coroutine is in charge of: the one its next operation acts
    on. *)
Definition owned {A} (m : coro A) : option (pid * ProcState) :=
  match m with
  | Vis o _ => op_owned o
  | _ => None
  end.

(** The process the caller is in charge of once operation [o] has answered
    [r]. *)
Definition next_owned (o : op) : exn + answer_of o -> option (pid * ProcState) :=
  match o as o' return exn + answer_of o' -> option (pid * ProcState) with
  | CreateSubprocessExec _ _ _ =>
      fun r => match r with inr p => Some (p, Running) | inl _ => None end
  | Communicate p _ _ =>
      fun r => match r with inl _ => Some (p, Running) | inr _ => None end
  | Kill p =>
      fun r => match r with inr _ => Some (p, Killed) | inl _ => None end
  | _ => fun _ => None
  end.

(** The answers the host gives to an operation on a process that is in the
    state the caller takes it to be in. *)
Definition possible (o : op) : exn + answer_of o -> Prop :=
  match o as o' return exn + answer_of o' -> Prop with
  | Communicate _ _ _ => fun r => r = inl TimeoutError \/ exists x, r = inr x
  | Kill _ => fun r => exists x, r = inr x
  | Wait _ => fun r => exists x, r = inr x
  | _ => fun _ => True
  end.

(** A coroutine that, after each answer, goes on with the process the answer
    leaves it in charge of. *)
Fixpoint proto {A} (m : coro A) : Prop :=
  match m with
  | Vis o k => forall r, possible o r -> owned (k r) = next_owned o r /\ proto (k r)
  | _ => True
  end.

(** What stays true of the processes while requests come and go: each task
    goes on as [proto] says, the process a task is in charge of is in the
    state the task takes it to be in, no two tasks are in charge of the same
    process, and every live process has a task in charge of it. *)
Definition process_invariant (s : World * list Task) : Prop :=
  Forall (fun t => proto (t_rest t)) s.2 /\
  (forall i t p st,
     s.2 !! i = Some t -> owned (t_rest t) = Some (p, st) ->
     p_state <$> procs s.1 !! p = Some st) /\
  (forall i j t u p st st',
     s.2 !! i = Some t -> s.2 !! j = Some u ->
     owned (t_rest t) = Some (p, st) -> owned (t_rest u) = Some (p, st') ->
     i = j) /\
  (forall q,
     live <$> procs s.1 !! q = Some true ->
     exists i t st, s.2 !! i = Some t /\ owned (t_rest t) = Some (q, st)).

(** ** Workspaces of requests in flight *)

(** The directory an operation writes to or removes. *)
Definition op_dir (o : op) : option string :=
  match o with
  | WriteText d _ _ | Rmtree d => Some d
  | _ => None
  end.

(** The directory an answered operation has made. *)
Definition made (o : op) : exn + answer_of o -> option string :=
  match o as o' return exn + answer_of o' -> option string with
  | Mkdtemp _ _ => fun r => match r with inr d => Some d | inl _ => None end
  | _ => fun _ => None
  end.

(** [targets m d]: before it makes a new directory, the coroutine may still
    write to [d] or remove it. *)
Fixpoint targets {A} (m : coro A) (d : string) : Prop :=
  match m with
  | Vis o k => op_dir o = Some d \/ (is_mkdtemp o = false /\ exists r, targets (k r) d)
  | _ => False
  end.

(** [confined own m]: a coroutine that has the directory [own] for its use
    writes to and removes that directory only; it makes a directory only
    when it has none, has the one it made from then on, and has none any more
    once it has removed it. *)
Fixpoint confined {A} (own : option string) (m : coro A) : Prop :=
  match m with
  | Vis o k =>
      (forall d, op_dir o = Some d -> own = Some d) /\
      (is_mkdtemp o = true -> own = None) /\
      forall r,
        confined
          (match made o r with
           | Some d => Some d
           | None => match o with Rmtree _ => None | _ => own end
           end)
          (k r)
  | _ => True
  end.

(** What stays true of the workspaces while requests come and go: each task
    is confined to some directory, the directories the tasks still have use
    for exist, and no two tasks have use for the same one. *)
Definition workspace_invariant (s : World * list Task) : Prop :=
  Forall (fun t => exists own, confined own (t_rest t)) s.2 /\
  (forall i t d,
     s.2 !! i = Some t -> targets (t_rest t) d -> is_Some (fs s.1 !! d)) /\
  (forall i j t u d,
     s.2 !! i = Some t -> s.2 !! j = Some u ->
     targets (t_rest t) d -> targets (t_rest u) d -> i = j).

(** * Proofs *)


(** ** Text that encodes *)

Lemma utf8_valid_snoc_ascii (b : N) (l : list N) :
  (b <= 127)%N -> utf8_valid (l ++ [b]) = utf8_valid l.
Proof.
  intros Hb.
  assert (cont b = false) as Hc.
  { unfold cont, in_range. apply andb_false_iff. left. apply N.leb_gt. lia. }
  assert (forall lo hi, (128 <= lo)%N -> in_range lo hi b = false) as Hr.
  { intros lo hi Hlo. unfold in_range. apply andb_false_iff. left.
    apply N.leb_gt. lia. }
  assert (utf8_valid [b] = true) as H1.
  { cbn. by rewrite (proj2 (N.leb_le _ _) Hb). }
  remember (length l) as n eqn:Hn.
  revert l Hn. induction (lt_wf n) as [n _ IH]. intros l Hn.
  destruct l as [|b0 l1]; [cbn [app]; by rewrite H1|].
  cbn [app]. cbn [utf8_valid].
  destruct (b0 <=? 127)%N; [apply (IH (length l1)); [subst n; cbn; lia|done]|].
  destruct l1 as [|b1 l2]; cbn [app].
  { rewrite Hc. cbn. by repeat case_match. }
  fold (utf8_valid (l2 ++ [b])). fold (utf8_valid l2).
  rewrite (IH (length l2) ltac:(subst n; cbn; lia) l2 eq_refl).
  destruct (in_range 194 223 b0); [done|].
  destruct l2 as [|b2 l3]; cbn [app].
  { rewrite Hc, !andb_false_r. by repeat case_match. }
  fold (utf8_valid (l3 ++ [b])). fold (utf8_valid l3).
  rewrite (IH (length l3) ltac:(subst n; cbn; lia) l3 eq_refl).
  repeat (case_match; [done|]).
  destruct l3 as [|b3 l4]; cbn [app].
  { rewrite Hc, !andb_false_r. by repeat case_match. }
  fold (utf8_valid (l4 ++ [b])). fold (utf8_valid l4).
  by rewrite (IH (length l4) ltac:(subst n; cbn; lia) l4 eq_refl).
Qed.

Lemma encode_app s1 s2 : encode (s1 ++ s2) = (encode s1 ++ encode s2)%list.
Proof.
  unfold encode, String.list_byte_of_string.
  induction s1 as [|a s1 IH]; [done|]. simpl. f_equal. apply IH.
Qed.

Lemma encode_newline : encode newline = ["010"%byte].
Proof. reflexivity. Qed.

(** The newline the runner appends changes nothing to whether the text
    encodes. *)
Lemma encodable_newline s : encodable (s ++ newline) = encodable s.
Proof.
  unfold encodable. rewrite encode_app, encode_newline, fmap_app.
  by apply utf8_valid_snoc_ascii.
Qed.

Lemma input_bytes_encodable s :
  encodable s = true -> input_bytes s = inr (stdin_payload s).
Proof.
  intros Hs. unfold input_bytes, stdin_payload.
  destruct s as [|a s]; [done|].
  cbn [String.length Nat.ltb Nat.leb]. rewrite encodable_newline, Hs.
  rewrite decide_False by done. by rewrite encode_app, encode_newline.
Qed.

Lemma input_bytes_not_encodable s :
  encodable s = false -> input_bytes s = inl UnicodeEncodeError.
Proof.
  intros Hs. unfold input_bytes.
  destruct s as [|a s]; [done|].
  cbn [String.length Nat.ltb Nat.leb]. by rewrite encodable_newline, Hs.
Qed.

Lemma exec_eval_bind {A B} orc (r : exn + A) (f : A -> coro B) w :
  exec orc (eval r ≫= f) w =
  match r with
  | inl e => (Raised e, w)
  | inr x => exec orc (f x) w
  end.
Proof. by destruct r. Qed.

(** ** Running a coroutine *)
Section Exec.
Context {A B : Type} (orc : Oracle).

Lemma exec_bind (m : coro A) (f : A -> coro B) w :
  exec orc (m ≫= f) w =
  match exec orc m w with
  | (Returned a, w') => exec orc (f a) w'
  | (Raised e, w') => (Raised e, w')
  | (Suspended, w') => (Suspended, w')
  end.
Proof.
  unfold mbind, coro_bind. revert w.
  induction m as [a|e|o k IH]; intros w; simpl; [done|done|].
  destruct (handle orc o w) as [[r w']|]; [apply IH|done].
Qed.
End Exec.

Lemma exec_perform orc o w :
  exec orc (perform o) w =
  match handle orc o w with
  | None => (Suspended, w)
  | Some (inl e, w') => (Raised e, log o w')
  | Some (inr x, w') => (Returned x, log o w')
  end.
Proof. simpl. destruct (handle orc o w) as [[[e|x] w']|]; done. Qed.

Lemma exec_try_except_timeout {A} orc (m h : coro A) w :
  exec orc (try_except_timeout m h) w =
  match exec orc m w with
  | (Raised e, w') => if decide (e = TimeoutError) then exec orc h w' else (Raised e, w')
  | other => other
  end.
Proof.
  revert w. induction m as [a|e|o k IH]; intros w; simpl.
  - done.
  - by destruct (decide (e = TimeoutError)).
  - destruct (handle orc o w) as [[r w']|]; [apply IH|done].
Qed.

Lemma exec_try_finally {A} orc (m : coro A) (h : coro unit) w :
  exec orc (try_finally m h) w =
  match exec orc m w with
  | (Returned a, w') => exec orc (h ;; Ret a) w'
  | (Raised e, w') => exec orc (h ;; Raise e) w'
  | (Suspended, w') => (Suspended, w')
  end.
Proof.
  revert w. induction m as [a|e|o k IH]; intros w; simpl; [done|done|].
  destruct (handle orc o w) as [[r w']|]; [apply IH|done].
Qed.

Lemma fresh_workdir orc w : fs w !! workdir_of orc w = None.
Proof.
  apply not_elem_of_dom. apply fresh_string_of_set_fresh.
Qed.

Lemma exec_perform_bind {B} orc o (f : answer_of o -> coro B) w :
  exec orc (perform o ≫= f) w =
  match handle orc o w with
  | None => (Suspended, w)
  | Some (inl e, w') => (Raised e, log o w')
  | Some (inr x, w') => exec orc (f x) (log o w')
  end.
Proof.
  rewrite exec_bind, exec_perform.
  destruct (handle orc o w) as [[[e|x] w']|]; done.
Qed.

(** Reading a field of an updated host. *)
Section Fields.
Context (w : World) (o : op).

Lemma fs_log : fs (log o w) = fs w. Proof. done. Qed.
Lemma procs_log : procs (log o w) = procs w. Proof. done. Qed.
Lemma permits_log : permits (log o w) = permits w. Proof. done. Qed.
Lemma os_environ_log : os_environ (log o w) = os_environ w. Proof. done. Qed.
Lemma trace_log : trace (log o w) = (trace w ++ [o])%list. Proof. done. Qed.

Lemma fs_set_fs f : fs (set_fs f w) = f. Proof. done. Qed.
Lemma procs_set_fs f : procs (set_fs f w) = procs w. Proof. done. Qed.
Lemma permits_set_fs f : permits (set_fs f w) = permits w. Proof. done. Qed.
Lemma os_environ_set_fs f : os_environ (set_fs f w) = os_environ w. Proof. done. Qed.
Lemma trace_set_fs f : trace (set_fs f w) = trace w. Proof. done. Qed.

Lemma fs_set_procs ps : fs (set_procs ps w) = fs w. Proof. done. Qed.
Lemma procs_set_procs ps : procs (set_procs ps w) = ps. Proof. done. Qed.
Lemma permits_set_procs ps : permits (set_procs ps w) = permits w. Proof. done. Qed.
Lemma os_environ_set_procs ps : os_environ (set_procs ps w) = os_environ w. Proof. done. Qed.
Lemma trace_set_procs ps : trace (set_procs ps w) = trace w. Proof. done. Qed.

Lemma fs_set_permits n : fs (set_permits n w) = fs w. Proof. done. Qed.
Lemma procs_set_permits n : procs (set_permits n w) = procs w. Proof. done. Qed.
Lemma permits_set_permits n : permits (set_permits n w) = n. Proof. done. Qed.
Lemma os_environ_set_permits n : os_environ (set_permits n w) = os_environ w. Proof. done. Qed.
Lemma trace_set_permits n : trace (set_permits n w) = trace w. Proof. done. Qed.

Lemma fs_released : fs (released w) = fs w. Proof. done. Qed.
Lemma procs_released : procs (released w) = procs w. Proof. done. Qed.
Lemma permits_released : permits (released w) = S (permits w). Proof. done. Qed.
Lemma os_environ_released : os_environ (released w) = os_environ w. Proof. done. Qed.
Lemma trace_released : trace (released w) = (trace w ++ [Release])%list. Proof. done. Qed.
End Fields.

Create Rewrite HintDb world.
#[global] Hint Rewrite
  fs_log procs_log permits_log os_environ_log trace_log
  fs_set_fs procs_set_fs permits_set_fs os_environ_set_fs trace_set_fs
  fs_set_procs procs_set_procs permits_set_procs os_environ_set_procs trace_set_procs
  fs_set_permits procs_set_permits permits_set_permits os_environ_set_permits
  trace_set_permits
  fs_released procs_released permits_released os_environ_released trace_released
  : world.

Lemma world_ext (w1 w2 : World) :
  fs w1 = fs w2 -> procs w1 = procs w2 -> permits w1 = permits w2 ->
  os_environ w1 = os_environ w2 -> trace w1 = trace w2 -> w1 = w2.
Proof. destruct w1, w2; simpl; congruence. Qed.

Lemma workdir_of_fs orc w1 w2 : fs w1 = fs w2 -> workdir_of orc w1 = workdir_of orc w2.
Proof. unfold workdir_of. by intros ->. Qed.

Section Acquired.
Context (orc : Oracle) (n : nat) (w : World).
Let w1 := log Acquire (set_permits n w).

Lemma workdir_of_acquired : workdir_of orc w1 = workdir_of orc w.
Proof. done. Qed.
Lemma spawn_ops_acquired c : spawn_ops orc w1 c = spawn_ops orc w c.
Proof. done. Qed.
Lemma spawned_acquired : spawned orc w1 = spawned orc w.
Proof. done. Qed.
End Acquired.

#[global] Hint Rewrite workdir_of_acquired spawn_ops_acquired spawned_acquired : world.

Ltac flatten := autorewrite with world.

Ltac step :=
  lazymatch goal with
  | |- context [exec ?orc (perform ?o ≫= ?f) ?w] =>
      rewrite (exec_perform_bind orc o); cbn [handle]; flatten
  end.

Ltac world_eq :=
  cbn [exec]; apply (f_equal2 pair); [reflexivity|];
  apply world_ext; flatten; cbn [fs procs permits os_environ trace]; flatten;
  rewrite ?insert_insert_eq, <- ?app_assoc; reflexivity.

Lemma insert_last {X} (l : list X) (x y : X) :
  <[length l := y]> (l ++ [x])%list = (l ++ [y])%list.
Proof. induction l as [|z l IH]; simpl; [done|]. by rewrite IH. Qed.

Lemma lookup_last {X} (l : list X) (x : X) : (l ++ [x])%list !! length l = Some x.
Proof. induction l; simpl; auto. Qed.

Lemma workdir_removed orc w (d : gmap string string) :
  delete (workdir_of orc w) (<[workdir_of orc w := d]> (<[workdir_of orc w := ∅]> (fs w))) = fs w.
Proof.
  rewrite insert_insert_eq, delete_insert_eq. apply delete_id, fresh_workdir.
Qed.

Lemma firejail_write_fails orc w c t s :
  encodable c = false ->
  exec orc (_run_in_firejail c t s) w =
  (Raised UnicodeEncodeError,
   {| fs := <[workdir_of orc w := {[ "main.py" := "" ]}]> (fs w);
      procs := procs w; permits := permits w; os_environ := os_environ w;
      trace := trace w ++ write_ops orc w c |}).
Proof.
  intros Hc. unfold _run_in_firejail.
  step. fold (workdir_of orc w).
  step. rewrite lookup_insert_eq, Hc.
  world_eq.
Qed.

Lemma firejail_spawn_fails orc w c t s e :
  encodable c = true ->
  spawn_error orc = Some e ->
  exec orc (_run_in_firejail c t s) w =
  (Raised e,
   {| fs := <[workdir_of orc w := {[ "main.py" := c ]}]> (fs w);
      procs := procs w; permits := permits w; os_environ := os_environ w;
      trace := trace w ++ spawn_ops orc w c |}).
Proof.
  intros Hc Hs. unfold _run_in_firejail.
  step. fold (workdir_of orc w).
  step. rewrite lookup_insert_eq, Hc.
  step. step. rewrite Hs.
  world_eq.
Qed.

Lemma firejail_encode_fails orc w c t s :
  encodable c = true ->
  spawn_error orc = None ->
  encodable s = false ->
  exec orc (_run_in_firejail c t s) w =
  (Raised UnicodeEncodeError,
   {| fs := <[workdir_of orc w := {[ "main.py" := c ]}]> (fs w);
      procs := procs w ++ [spawned orc w];
      permits := permits w; os_environ := os_environ w;
      trace := trace w ++ spawn_ops orc w c |}).
Proof.
  intros Hc Hs He. unfold _run_in_firejail.
  step. fold (workdir_of orc w).
  step. rewrite lookup_insert_eq, Hc.
  step. step. rewrite Hs. fold (spawned orc w).
  rewrite exec_bind, exec_try_except_timeout.
  rewrite exec_eval_bind, (input_bytes_not_encodable _ He).
  destruct (decide (UnicodeEncodeError = TimeoutError)); [done|].
  world_eq.
Qed.

Lemma firejail_exits orc w c t s :
  encodable c = true ->
  spawn_error orc = None ->
  encodable s = true ->
  exits_in_time (behaviour orc) t = true ->
  let b := behaviour orc in
  let p := length (procs w) in
  exec orc (_run_in_firejail c t s) w =
  (conclude (exit_code b) (out_bytes b) (err_bytes b),
   {| fs := fs w;
      procs := procs w ++
        [set_state (Terminated (exit_code b)) (set_input (stdin_payload s) (spawned orc w))];
      permits := permits w; os_environ := os_environ w;
      trace := trace w ++ spawn_ops orc w c ++
        [Communicate p (stdin_payload s) t; Rmtree (workdir_of orc w)] |}).
Proof.
  intros Hc Hs He Hx. cbv zeta. unfold _run_in_firejail.
  step. fold (workdir_of orc w).
  step. rewrite lookup_insert_eq, Hc.
  step. step. rewrite Hs. fold (spawned orc w).
  rewrite exec_bind, exec_try_except_timeout.
  rewrite exec_eval_bind, (input_bytes_encodable _ He).
  step. rewrite lookup_last.
  cbn [spawned new_process p_state p_behaviour]. rewrite Hx.
  cbn [exec]. step. rewrite insert_last, workdir_removed.
  unfold conclude.
  destruct (decode (out_bytes _)) as [o|]; [destruct (decode (err_bytes _)) as [e|]|];
    world_eq.
Qed.

Lemma firejail_overruns orc w c t s :
  encodable c = true ->
  spawn_error orc = None ->
  encodable s = true ->
  exits_in_time (behaviour orc) t = false ->
  let p := length (procs w) in
  exec orc (_run_in_firejail c t s) w =
  (Returned (Failed, AsDict TimeLimitExceeded "" ("Timeout" ++ newline)),
   {| fs := fs w;
      procs := procs w ++
        [set_state (Terminated (-9))
           (set_input (if Qlt_le_dec 0 t then stdin_payload s else None)
              (spawned orc w))];
      permits := permits w; os_environ := os_environ w;
      trace := trace w ++ spawn_ops orc w c ++
        [Communicate p (stdin_payload s) t; Kill p; Wait p; Rmtree (workdir_of orc w)] |}).
Proof.
  intros Hc Hs He Hx. cbv zeta. unfold _run_in_firejail.
  step. fold (workdir_of orc w).
  step. rewrite lookup_insert_eq, Hc.
  step. step. rewrite Hs. fold (spawned orc w).
  rewrite exec_bind, exec_try_except_timeout.
  rewrite exec_eval_bind, (input_bytes_encodable _ He).
  step. rewrite lookup_last.
  cbn [spawned new_process p_state p_behaviour p_input]. rewrite Hx.
  cbn [exec]. destruct (decide (TimeoutError = TimeoutError)); [|done].
  step. rewrite insert_last, lookup_last. cbn [set_input p_state].
  change (p_state (spawned orc w)) with Running. cbv iota.
  step. rewrite insert_last, lookup_last. cbn [set_state p_state].
  step. rewrite insert_last, workdir_removed. world_eq.
Qed.

(** ** The gate around the runner *)

Lemma exec_async_with_POOL {A} orc (body : coro A) w :
  exec orc (async_with_POOL body) w =
  match permits w with
  | O => (Suspended, w)
  | S n =>
      match exec orc body (log Acquire (set_permits n w)) with
      | (Suspended, w') => (Suspended, w')
      | (r, w') => (r, released w')
      end
  end.
Proof.
  unfold async_with_POOL. rewrite (exec_perform_bind orc Acquire). cbn [handle].
  destruct (permits w) as [|n]; [done|].
  rewrite exec_try_finally.
  destruct (exec orc body _) as [[a|e|] w']; [| |done];
    by rewrite (exec_perform_bind orc Release).
Qed.

Lemma run_code_rejects orc req w :
  language req <> "python" ->
  exec orc (run_code req) w =
  (Raised (HTTPException 400 "Only Python is supported in this minimal demo."), w).
Proof.
  intros Hl. unfold run_code.
  destruct (String.eqb_spec (language req) "python") as [|_]; [done|]. done.
Qed.

Lemma run_code_python orc req w :
  language req = "python" ->
  exec orc (run_code req) w =
  match permits w with
  | O => (Suspended, w)
  | S n =>
      match exec orc (_run_in_firejail (code req) (run_timeout req) (stdin req))
                 (log Acquire (set_permits n w)) with
      | (Returned p, w') => (Returned (respond p), released w')
      | (Raised e, w') => (Raised e, released w')
      | (Suspended, w') => (Suspended, w')
      end
  end.
Proof.
  intros Hl. unfold run_code. rewrite Hl. cbn [String.eqb Ascii.eqb Bool.eqb negb].
  rewrite exec_bind, exec_async_with_POOL.
  destruct (permits w) as [|n]; [done|].
  destruct (exec orc _ _) as [[[st res]|e|] w']; done.
Qed.

(** ** A request from arrival to answer, by scenario *)

Section Scenarios.
Context (orc : Oracle) (req : RunCodeRequest) (w : World).
Hypothesis Hlang : language req = "python".
Hypothesis Hpermit : permits w <> 0%nat.

Let wd := workdir_of orc w.
Let p := length (procs w).
Let b := behaviour orc.

Lemma run_code_write_fails :
  encodable (code req) = false ->
  exec orc (run_code req) w =
  (Raised UnicodeEncodeError,
   {| fs := <[wd := {[ "main.py" := "" ]}]> (fs w);
      procs := procs w; permits := permits w; os_environ := os_environ w;
      trace := trace w ++ Acquire :: write_ops orc w (code req) ++ [Release] |}).
Proof.
  intros Hc. rewrite run_code_python by done.
  destruct (permits w) as [|n] eqn:Hn; [done|].
  rewrite firejail_write_fails by done.
  world_eq.
Qed.

Lemma run_code_spawn_fails e :
  encodable (code req) = true ->
  spawn_error orc = Some e ->
  exec orc (run_code req) w =
  (Raised e,
   {| fs := <[wd := {[ "main.py" := code req ]}]> (fs w);
      procs := procs w; permits := permits w; os_environ := os_environ w;
      trace := trace w ++ Acquire :: spawn_ops orc w (code req) ++ [Release] |}).
Proof.
  intros Hc Hs. rewrite run_code_python by done.
  destruct (permits w) as [|n] eqn:Hn; [done|].
  rewrite (firejail_spawn_fails _ _ _ _ _ e) by done.
  world_eq.
Qed.

Lemma run_code_encode_fails :
  encodable (code req) = true ->
  spawn_error orc = None ->
  encodable (stdin req) = false ->
  exec orc (run_code req) w =
  (Raised UnicodeEncodeError,
   {| fs := <[wd := {[ "main.py" := code req ]}]> (fs w);
      procs := procs w ++ [spawned orc w];
      permits := permits w; os_environ := os_environ w;
      trace := trace w ++ Acquire :: spawn_ops orc w (code req) ++ [Release] |}).
Proof.
  intros Hc Hs He. rewrite run_code_python by done.
  destruct (permits w) as [|n] eqn:Hn; [done|].
  rewrite firejail_encode_fails by done.
  world_eq.
Qed.

Lemma run_code_exits :
  encodable (code req) = true ->
  spawn_error orc = None ->
  encodable (stdin req) = true ->
  exits_in_time b (run_timeout req) = true ->
  exec orc (run_code req) w =
  (answer (conclude (exit_code b) (out_bytes b) (err_bytes b)),
   {| fs := fs w;
      procs := procs w ++
        [set_state (Terminated (exit_code b))
           (set_input (stdin_payload (stdin req)) (spawned orc w))];
      permits := permits w; os_environ := os_environ w;
      trace := trace w ++ Acquire :: spawn_ops orc w (code req) ++
        [Communicate p (stdin_payload (stdin req)) (run_timeout req);
         Rmtree wd; Release] |}).
Proof.
  intros Hc Hs He Hx. rewrite run_code_python by done.
  destruct (permits w) as [|n] eqn:Hn; [done|].
  rewrite firejail_exits by done. fold b.
  assert (forall (o : outcome (RunStatus * run_payload)) w1 w2,
    o <> Suspended -> released w1 = w2 ->
    match o with
    | Returned q => (Returned (respond q), released w1)
    | Raised e => (Raised e, released w1)
    | Suspended => (Suspended, w1)
    end = (answer o, w2)) as Hm.
  { intros [q|e|] w1 w2 Ho <-; done. }
  apply Hm.
  - unfold conclude. by repeat case_match.
  - apply world_ext; flatten; cbn [fs procs permits os_environ trace]; flatten;
      rewrite <- ?app_assoc; reflexivity.
Qed.

Lemma run_code_overruns :
  encodable (code req) = true ->
  spawn_error orc = None ->
  encodable (stdin req) = true ->
  exits_in_time b (run_timeout req) = false ->
  exec orc (run_code req) w =
  (Returned (respond (Failed, AsDict TimeLimitExceeded "" ("Timeout" ++ newline))),
   {| fs := fs w;
      procs := procs w ++
        [set_state (Terminated (-9))
           (set_input (if Qlt_le_dec 0 (run_timeout req)
                       then stdin_payload (stdin req) else None)
              (spawned orc w))];
      permits := permits w; os_environ := os_environ w;
      trace := trace w ++ Acquire :: spawn_ops orc w (code req) ++
        [Communicate p (stdin_payload (stdin req)) (run_timeout req);
         Kill p; Wait p; Rmtree wd; Release] |}).
Proof.
  intros Hc Hs He Hx. rewrite run_code_python by done.
  destruct (permits w) as [|n] eqn:Hn; [done|].
  rewrite firejail_overruns by done.
  world_eq.
Qed.
End Scenarios.

(** ** What the coroutine trees can do, whatever the host answers *)

Lemma returns_only_exec {A} (P : A -> Prop) orc (m : coro A) w a :
  returns_only P m -> (exec orc m w).1 = Returned a -> P a.
Proof.
  revert w. induction m as [x|e|o k IH]; intros w Hm; simpl.
  - by intros [= <-].
  - done.
  - destruct (handle orc o w) as [[r w']|]; [|done]. apply IH, Hm.
Qed.

Lemma returns_only_bind {A B} (P : A -> Prop) (Q : B -> Prop)
    (m : coro A) (f : A -> coro B) :
  returns_only P m -> (forall a, P a -> returns_only Q (f a)) ->
  returns_only Q (m ≫= f).
Proof.
  intros Hm Hf. unfold mbind, coro_bind.
  induction m as [x|e|o k IH]; simpl in *; auto.
Qed.

Lemma returns_only_try_finally {A} (P : A -> Prop) (m : coro A) h :
  returns_only P m -> returns_only P (try_finally m h).
Proof.
  intros Hm. induction m as [x|e|o k IH]; simpl in *; auto.
  - apply (returns_only_bind (fun _ => True)); [|done].
    clear. induction h; simpl; auto.
  - apply (returns_only_bind (fun _ => True)); [|done].
    clear. induction h; simpl; auto.
Qed.

Lemma returns_only_try_except {A} (P : A -> Prop) (m h : coro A) :
  returns_only P m -> returns_only P h -> returns_only P (try_except_timeout m h).
Proof.
  intros Hm Hh. induction m as [x|e|o k IH]; simpl in *; auto.
  by destruct (decide (e = TimeoutError)).
Qed.

Lemma returns_only_weaken {A} (P Q : A -> Prop) (m : coro A) :
  (forall a, P a -> Q a) -> returns_only P m -> returns_only Q m.
Proof. intros HPQ. induction m as [x|e|o k IH]; simpl; auto. Qed.

Lemma returns_only_true {A} (m : coro A) : returns_only (fun _ => True) m.
Proof. induction m; simpl; auto. Qed.

Lemma runner_returns c t s : returns_only runner_pair (_run_in_firejail c t s).
Proof.
  unfold _run_in_firejail.
  apply (returns_only_bind (fun _ => True)); [apply returns_only_true|intros wd _].
  apply (returns_only_bind (fun _ => True)); [apply returns_only_true|intros _ _].
  apply (returns_only_bind (fun _ => True)); [apply returns_only_true|intros env _].
  apply (returns_only_bind (fun _ => True)); [apply returns_only_true|intros pr _].
  apply (returns_only_bind
           (fun r => match r with inl q => runner_pair q | inr _ => True end)).
  - apply returns_only_try_except.
    + apply (returns_only_bind (fun _ => True)); [apply returns_only_true|intros i _].
      apply (returns_only_bind (fun _ => True)); [apply returns_only_true|done].
    + repeat (apply (returns_only_bind (fun _ => True));
                [apply returns_only_true|intros _ _]).
      simpl. by left.
  - intros [q|[[out err] rc]] Hq; [done|].
    apply (returns_only_bind (fun _ => True)); [apply returns_only_true|intros _ _].
    destruct (decode out) as [o|]; [|done].
    destruct (decode err) as [e|]; [|done].
    simpl. right. by exists rc, o, e.
Qed.

Lemma handler_returns req :
  returns_only (fun r => exists q, runner_pair q /\ r = respond q) (run_code req).
Proof.
  unfold run_code. destruct (negb _); [done|].
  apply (returns_only_bind runner_pair).
  - unfold async_with_POOL.
    apply (returns_only_bind (fun _ => True)); [apply returns_only_true|intros _ _].
    apply returns_only_try_finally, runner_returns.
  - intros [st res] Hq. simpl. by exists (st, res).
Qed.

(** ** The gate discipline *)

Lemma no_gate_ops_bind {A B} (m : coro A) (f : A -> coro B) :
  no_gate_ops m -> (forall a, no_gate_ops (f a)) -> no_gate_ops (m ≫= f).
Proof.
  intros Hm Hf. unfold mbind, coro_bind.
  induction m as [x|e|o k IH]; simpl in *; auto.
  destruct Hm as (? & ? & Hk). auto.
Qed.

Lemma no_gate_ops_perform o :
  is_acquire o = false -> is_release o = false -> no_gate_ops (perform o).
Proof. intros ??. simpl. repeat split; try done. by intros [e|x]. Qed.

Lemma no_gate_ops_try_except {A} (m h : coro A) :
  no_gate_ops m -> no_gate_ops h -> no_gate_ops (try_except_timeout m h).
Proof.
  intros Hm Hh. induction m as [x|e|o k IH]; simpl in *; auto.
  - by destruct (decide (e = TimeoutError)).
  - destruct Hm as (? & ? & Hk). auto.
Qed.

Lemma no_gate_ops_eval {A} (r : exn + A) : no_gate_ops (eval r).
Proof. by destruct r. Qed.

Lemma runner_no_gate_ops c t s : no_gate_ops (_run_in_firejail c t s).
Proof.
  unfold _run_in_firejail.
  apply no_gate_ops_bind; [by apply no_gate_ops_perform|intros wd].
  apply no_gate_ops_bind; [by apply no_gate_ops_perform|intros _].
  apply no_gate_ops_bind; [by apply no_gate_ops_perform|intros env].
  apply no_gate_ops_bind; [by apply no_gate_ops_perform|intros pr].
  apply no_gate_ops_bind.
  - apply no_gate_ops_try_except.
    + apply no_gate_ops_bind; [apply no_gate_ops_eval|intros i].
      apply no_gate_ops_bind; [by apply no_gate_ops_perform|done].
    + repeat (apply no_gate_ops_bind; [by apply no_gate_ops_perform|intros _]).
      done.
  - intros [q|[[out err] rc]]; [done|].
    apply no_gate_ops_bind; [by apply no_gate_ops_perform|intros _].
    by repeat case_match.
Qed.

Lemma gated_bind {A B} h (m : coro A) (f : A -> coro B) :
  gated h m -> (forall a, gated 0 (f a)) -> gated h (m ≫= f).
Proof.
  intros Hm Hf. unfold mbind, coro_bind. revert h Hm.
  induction m as [x|e|o k IH]; intros h Hm; simpl in *.
  - by subst h.
  - done.
  - destruct o; simpl in *; destruct Hm as [? Hk]; split; auto.
Qed.

Lemma gated_try_finally {A} (body : coro A) :
  no_gate_ops body -> gated 1 (try_finally body (perform Release)).
Proof.
  induction body as [x|e|o k IH]; simpl.
  - done.
  - done.
  - intros (Ha & Hr & Hk). destruct o; simpl in *; try done; split; auto.
Qed.

Lemma async_with_POOL_gated {A} (body : coro A) :
  no_gate_ops body -> gated 0 (async_with_POOL body).
Proof.
  intros Hb. unfold async_with_POOL, mbind, coro_bind.
  cbn [perform bind gated]. split; [done|]. by apply gated_try_finally.
Qed.

Lemma run_code_gated req : gated 0 (run_code req).
Proof.
  unfold run_code. destruct (negb _); [done|].
  apply gated_bind; [|by intros [??]].
  apply async_with_POOL_gated, runner_no_gate_ops.
Qed.

Lemma handle_acquire orc w r w' :
  handle orc Acquire w = Some (r, w') -> r = inr tt /\ permits w = S (permits w').
Proof. simpl. destruct (permits w) eqn:Hp; [done|]. by intros [= <- <-]. Qed.

Lemma handle_release orc w r w' :
  handle orc Release w = Some (r, w') -> r = inr tt /\ permits w' = S (permits w).
Proof. simpl. by intros [= <- <-]. Qed.

Lemma handle_permits orc o w r w' :
  is_acquire o = false -> is_release o = false ->
  handle orc o w = Some (r, w') -> permits w' = permits w.
Proof.
  destruct o; simpl; intros ?? H; try done; repeat case_match; by simplify_eq.
Qed.

Lemma sum_list_insert (ts : list Task) i t t' :
  ts !! i = Some t ->
  (sum_list (t_held <$> <[i := t']> ts) + t_held t =
   sum_list (t_held <$> ts) + t_held t')%nat.
Proof.
  revert i. induction ts as [|u ts IH]; intros [|i] Hi; simplify_eq/=; [lia|].
  specialize (IH _ Hi). lia.
Qed.

Lemma running_le_held (ts : list Task) : (running ts <= sum_list (t_held <$> ts))%nat.
Proof.
  unfold running. induction ts as [|t ts IH]; [done|].
  rewrite filter_cons, fmap_cons. cbn [sum_list_with sum_list].
  change (id (t_held t)) with (t_held t).
  case_decide as Hd; [|lia].
  cbn [length]. unfold in_gate in Hd. apply bool_decide_eq_true in Hd. lia.
Qed.

Lemma new_tasks_hold_nothing reqs : sum_list (t_held <$> (new_task <$> reqs)) = 0%nat.
Proof. induction reqs as [|r reqs IH]; [done|]. rewrite !fmap_cons. apply IH. Qed.

Lemma gate_invariant_initial w reqs : gate_invariant (initial w reqs).
Proof.
  split; cbn [initial fst snd].
  - rewrite new_tasks_hold_nothing, permits_set_permits. lia.
  - apply Forall_fmap, Forall_forall. intros r _. apply run_code_gated.
Qed.

Lemma gate_invariant_step s s' :
  gate_invariant s -> sys_step s s' -> gate_invariant s'.
Proof.
  intros [Hsum Hall] Hstep. destruct Hstep as [w ts i t w' t' Hi Ht].
  cbn [fst snd] in *. unfold task_step in Ht.
  pose proof (Forall_lookup_1 _ _ _ _ Hall Hi) as Hg.
  cbv beta in Hg.
  destruct (t_rest t) as [x|e|o k] eqn:Hrest; [done|done|]. clear Hrest.
  destruct (handle (t_oracle t) o w) as [[r w0]|] eqn:Hh; [|done].
  injection Ht as <- <-.
  pose proof (sum_list_insert ts i t
    {| t_oracle := t_oracle t; t_held := held_after o (t_held t); t_rest := k r |} Hi)
    as Hs.
  cbn [t_held] in Hs.
  assert (permits (log o w0) + held_after o (t_held t) = permits w + t_held t
          /\ gated (held_after o (t_held t)) (k r))%nat as [Hp Hk].
  { rewrite permits_log.
    destruct o; cbn [gated held_after] in *; destruct Hg as [Hh' Hk];
      try (split; [|by apply Hk];
           pose proof (fun H1 H2 => handle_permits _ _ _ _ _ H1 H2 Hh) as Hp;
           by rewrite Hp).
    - apply handle_acquire in Hh as [-> ->]. split; [lia|]. by rewrite Hh'.
    - apply handle_release in Hh as [-> ->]. split; [lia|]. by rewrite Hh'. }
  split; cbn [fst snd].
  - lia.
  - apply Forall_insert; [done|]. done.
Qed.

Lemma gate_invariant_reachable w reqs s :
  rtc sys_step (initial w reqs) s -> gate_invariant s.
Proof.
  intros H. revert s H. apply rtc_ind_r.
  - apply gate_invariant_initial.
  - intros s1 s2 _ Hst Hinv. by eapply gate_invariant_step.
Qed.

(** ** Small facts used by the claims *)

Lemma events_since_app w w' l :
  trace w' = (trace w ++ l)%list -> events_since w w' = l.
Proof. unfold events_since. intros ->. by rewrite drop_app_length. Qed.

Lemma clean_env_fold (env : gmap string string) (k : string) (l : list string)
    (d : gmap string string) :
  foldl (fun d k => match env !! k with
                    | Some v => <[k := v]> d
                    | None => d
                    end) d l !! k =
  match (if decide (k ∈ l) then env !! k else None) with
  | Some v => Some v
  | None => d !! k
  end.
Proof.
  revert d. induction l as [|x l IH]; intros d; cbn [foldl].
  - by rewrite decide_False by apply not_elem_of_nil.
  - rewrite IH. destruct (decide (k ∈ l)) as [Hl|Hl].
    + rewrite decide_True by by right.
      destruct (env !! k) as [v|] eqn:Hk; [done|].
      destruct (env !! x) as [vx|] eqn:Hx; [|done].
      rewrite lookup_insert_ne; [done|]. by intros ->; rewrite Hx in Hk.
    + destruct (decide (k = x)) as [->|Hne].
      * rewrite decide_True by by left.
        destruct (env !! x) as [vx|]; [by rewrite lookup_insert_eq|done].
      * rewrite decide_False by (rewrite elem_of_cons; intros [?|?]; done).
        destruct (env !! x); [by rewrite lookup_insert_ne|done].
Qed.

Lemma clean_env_lookup (env : gmap string string) (k : string) :
  clean_env env !! k = if decide (k ∈ whitelist) then env !! k else None.
Proof.
  unfold clean_env. rewrite clean_env_fold, lookup_empty.
  by repeat case_match.
Qed.

Lemma gated_executing (t : Task) :
  gated (t_held t) (t_rest t) -> executing t = true -> t_held t = 1%nat.
Proof.
  unfold executing. destruct (t_rest t) as [a|e|o k]; [done|done|].
  destruct o; cbn [gated is_acquire negb]; try done; by intros [-> _].
Qed.

Lemma filter_length_mono {X} (P Q : X -> Prop)
    `{!forall x, Decision (P x)} `{!forall x, Decision (Q x)} (l : list X) :
  Forall (fun x => P x -> Q x) l ->
  (length (filter P l) <= length (filter Q l))%nat.
Proof.
  induction 1 as [|x l Hx _ IH]; [done|].
  rewrite !filter_cons. repeat case_decide; cbn [length]; try lia. tauto.
Qed.

Lemma gated_le_1 {A} h (m : coro A) : gated h m -> (h <= 1)%nat.
Proof.
  destruct m as [a|e|o k]; cbn [gated]; [lia|lia|].
  destruct o; intros [-> _]; lia.
Qed.

(** ** The process a request is in charge of *)

Ltac proto_simpl :=
  cbn [bind perform eval try_finally try_except_timeout proto owned op_owned
       next_owned possible mbind coro_bind].

Ltac proto_answer H :=
  first
    [ lazymatch type of H with True => clear H end
    | lazymatch type of H with
      | _ \/ _ => destruct H as [H|[? H]]; [injection H as ->|discriminate H]
      end
    | lazymatch type of H with
      | _ \/ _ => destruct H as [H|[? H]]; [discriminate H|clear H]
      end
    | lazymatch type of H with
      | ex _ => destruct H as [? H]; first [discriminate H|clear H]
      end ].

Ltac proto_go :=
  proto_simpl;
  lazymatch goal with
  | |- True => exact I
  | |- _ /\ _ => split; proto_go
  | |- forall r, _ -> _ =>
      let H := fresh "H" in
      intros [?|?] H; cbn [possible] in H; proto_answer H; proto_go
  | |- context [let (_, _) := ?x in _] => destruct x; proto_go
  | |- context [decide (?e = TimeoutError)] =>
      destruct (decide (e = TimeoutError)); [|try done]; proto_go
  | |- context [match decode ?b with _ => _ end] =>
      destruct (decode b); proto_go
  | |- @eq (option _) _ _ => reflexivity
  end.

Lemma run_code_proto req : encodable (stdin req) = true -> proto (run_code req).
Proof.
  intros He. unfold run_code. destruct (negb _); [done|].
  unfold async_with_POOL, _run_in_firejail.
  rewrite (input_bytes_encodable _ He).
  proto_go.
Qed.

Lemma run_code_owned req : owned (run_code req) = None.
Proof. unfold run_code. by destruct (negb _). Qed.

Lemma lookup_spawned {X} (l : list X) (x y : X) q :
  (l ++ [x])%list !! q = Some y -> l !! q = Some y \/ (q = length l /\ y = x).
Proof.
  intros H. destruct (decide (q < length l)%nat) as [Hlt|Hge].
  - left. by rewrite lookup_app_l in H.
  - right. rewrite lookup_app_r in H by lia.
    destruct (q - length l)%nat as [|n] eqn:Hq; [|done].
    injection H as <-. split; [lia|done].
Qed.

(** What one operation does to the process table, when the process it acts
    on is in the state its caller takes it to be in. *)
Lemma handle_effect orc o w r w' :
  handle orc o w = Some (r, w') ->
  (forall p st, op_owned o = Some (p, st) -> p_state <$> procs w !! p = Some st) ->
  possible o r /\
  (forall p st, next_owned o r = Some (p, st) ->
     p_state <$> procs w' !! p = Some st) /\
  (forall p st, next_owned o r = Some (p, st) ->
     fst <$> op_owned o = Some p \/ procs w !! p = None) /\
  (forall q pr, fst <$> op_owned o <> Some q ->
     procs w !! q = Some pr -> procs w' !! q = Some pr) /\
  (forall q, live <$> procs w' !! q = Some true ->
     fst <$> next_owned o r = Some q \/
     (live <$> procs w !! q = Some true /\ fst <$> op_owned o <> Some q)).
Proof.
  intros Hh Hown.
  destruct o; cbn [handle] in Hh; cbn [op_owned next_owned possible];
    unfold pid in *.
  - (* Mkdtemp *) injection Hh as <- <-. rewrite procs_set_fs. naive_solver.
  - (* WriteText *)
    destruct (fs w !! dir); [destruct (encodable data)|]; injection Hh as <- <-;
      rewrite ?procs_set_fs; naive_solver.
  - (* Environ *) injection Hh as <- <-. naive_solver.
  - (* CreateSubprocessExec *)
    destruct (spawn_error orc); injection Hh as <- <-; [naive_solver|].
    rewrite procs_set_procs. split; [done|]. split; [|split; [|split]].
    + intros p st [= <- <-]. by rewrite lookup_last.
    + intros p st [= <- <-]. right. by apply lookup_ge_None.
    + intros q pr _ Hq. by apply lookup_app_l_Some.
    + intros q Hq. destruct ((procs w ++ _)%list !! q) as [pr|] eqn:Hpr; [|done].
      apply lookup_spawned in Hpr as [Hpr|[-> _]]; [|by left].
      right. rewrite Hpr. by split.
  - (* Communicate *)
    specialize (Hown p Running eq_refl).
    destruct (procs w !! p) as [pr|] eqn:Hpr; [|done].
    injection Hown as Hst. rewrite Hst in Hh.
    assert (p < length (procs w))%nat as Hlt by by eapply lookup_lt_Some.
    destruct (exits_in_time (p_behaviour pr) timeout); injection Hh as <- <-;
      rewrite procs_set_procs.
    + split; [right; by eexists|]. split; [done|]. split; [done|]. split.
      * intros q pr' Hq Hpr'. rewrite list_lookup_insert_ne; [done|]. intros ->. by apply Hq.
      * intros q Hq. right. destruct (decide (p = q)) as [<-|Hne].
        -- by rewrite list_lookup_insert_eq in Hq by done.
        -- rewrite list_lookup_insert_ne in Hq by done. split; [done|]. by intros [= ->].
    + split; [by left|]. split; [|split; [|split]].
      * intros ? ? [= <- <-]. rewrite list_lookup_insert_eq by done.
        cbn. by rewrite Hst.
      * intros ? ? [= <- <-]. by left.
      * intros q pr' Hq Hpr'. rewrite list_lookup_insert_ne; [done|]. intros ->. by apply Hq.
      * intros q Hq. destruct (decide (p = q)) as [<-|Hne]; [by left|].
        right. rewrite list_lookup_insert_ne in Hq by done. split; [done|]. by intros [= ->].
  - (* Kill *)
    specialize (Hown p Running eq_refl).
    destruct (procs w !! p) as [pr|] eqn:Hpr; [|done].
    injection Hown as Hst. rewrite Hst in Hh.
    assert (p < length (procs w))%nat as Hlt by by eapply lookup_lt_Some.
    injection Hh as <- <-. rewrite procs_set_procs.
    split; [by eexists|]. split; [|split; [|split]].
    + intros ? ? [= <- <-]. by rewrite list_lookup_insert_eq by done.
    + intros ? ? [= <- <-]. by left.
    + intros q pr' Hq Hpr'. rewrite list_lookup_insert_ne; [done|]. intros ->. by apply Hq.
    + intros q Hq. destruct (decide (p = q)) as [<-|Hne]; [by left|].
      right. rewrite list_lookup_insert_ne in Hq by done. split; [done|]. by intros [= ->].
  - (* Wait *)
    specialize (Hown p Killed eq_refl).
    destruct (procs w !! p) as [pr|] eqn:Hpr; [|done].
    injection Hown as Hst. rewrite Hst in Hh.
    assert (p < length (procs w))%nat as Hlt by by eapply lookup_lt_Some.
    injection Hh as <- <-. rewrite procs_set_procs.
    split; [by eexists|]. split; [done|]. split; [done|]. split.
    + intros q pr' Hq Hpr'. rewrite list_lookup_insert_ne; [done|]. intros ->. by apply Hq.
    + intros q Hq. right. destruct (decide (p = q)) as [<-|Hne].
      * by rewrite list_lookup_insert_eq in Hq by done.
      * rewrite list_lookup_insert_ne in Hq by done. split; [done|]. by intros [= ->].
  - (* Rmtree *) injection Hh as <- <-. rewrite procs_set_fs. naive_solver.
  - (* Acquire *)
    destruct (permits w); [done|]. injection Hh as <- <-.
    rewrite procs_set_permits. naive_solver.
  - (* Release *) injection Hh as <- <-. rewrite procs_set_permits. naive_solver.
Qed.

Lemma process_invariant_initial w reqs :
  Forall (fun pr => live pr = false) (procs w) ->
  Forall (fun p => encodable (stdin p.2) = true) reqs ->
  process_invariant (initial w reqs).
Proof.
  intros Hdead Henc. unfold process_invariant, initial. cbn [fst snd].
  assert (forall i t, (new_task <$> reqs) !! i = Some t -> owned (t_rest t) = None)
    as Hnone.
  { intros i t Hi. apply list_lookup_fmap_Some in Hi as (r & -> & _).
    apply run_code_owned. }
  split; [|split; [|split]].
  - apply Forall_fmap. eapply Forall_impl; [exact Henc|].
    intros r Hr. by apply run_code_proto.
  - intros i t p st Hi Ho. by rewrite (Hnone _ _ Hi) in Ho.
  - intros i j t u p st st' Hi _ Ho. by rewrite (Hnone _ _ Hi) in Ho.
  - intros q Hq. rewrite procs_set_permits in Hq.
    destruct (procs w !! q) as [pr|] eqn:Hpr; [|done].
    rewrite Forall_forall in Hdead.
    assert (live pr = false) as Hl by (eapply Hdead, list_elem_of_lookup_2, Hpr).
    cbn in Hq. congruence.
Qed.

Lemma process_invariant_step s s' :
  process_invariant s -> sys_step s s' -> process_invariant s'.
Proof.
  intros (Hproto & Hstate & Hinj & Hlive) Hstep.
  destruct Hstep as [w ts i t w' t' Hi Ht]. cbn [fst snd] in *.
  unfold task_step in Ht.
  pose proof (Forall_lookup_1 _ _ _ _ Hproto Hi) as Hp. cbv beta in Hp.
  pose proof (Hstate i t) as Hsti. specialize (Hsti) .
  destruct (t_rest t) as [x|e|o k] eqn:Hrest; [done|done|].
  destruct (handle (t_oracle t) o w) as [[r w0]|] eqn:Hh; [|done].
  injection Ht as <- <-.
  assert (i < length ts)%nat as Hlt by by eapply lookup_lt_Some.
  destruct (handle_effect _ _ _ _ _ Hh) as (Hposs & Hnew & Hfresh & Hframe & Hlv).
  { intros p st Ho. by apply (Hstate i t p st Hi); rewrite Hrest. }
  cbn [proto] in Hp. destruct (Hp r Hposs) as [Hown' Hproto'].
  set (t' := {| t_oracle := t_oracle t; t_held := held_after o (t_held t);
                t_rest := k r |}).
  assert (forall j u, j <> i -> <[i := t']> ts !! j = Some u -> ts !! j = Some u)
    as Hother.
  { intros j u Hj Hu. by rewrite list_lookup_insert_ne in Hu. }
  assert (forall j u p st, j <> i -> ts !! j = Some u ->
            owned (t_rest u) = Some (p, st) -> fst <$> op_owned o <> Some p) as Hdiff.
  { intros j u p st Hj Hu Ho Heq.
    destruct (op_owned o) as [[p' st']|] eqn:Hop; [|done].
    injection Heq as ->.
    apply Hj. apply (Hinj j i u t p st st' Hu Hi Ho). by rewrite Hrest. }
  unfold process_invariant. cbn [fst snd]. rewrite procs_log.
  split; [|split; [|split]].
  - by apply Forall_insert.
  - intros j u p st Hu Ho. destruct (decide (j = i)) as [->|Hj].
    + rewrite list_lookup_insert_eq in Hu by done. injection Hu as <-.
      cbn [t_rest t'] in Ho. rewrite Hown' in Ho. by apply Hnew.
    + apply Hother in Hu; [|done].
      pose proof (Hstate j u p st Hu Ho) as Hold.
      destruct (procs w !! p) as [pr|] eqn:Hpr; [|done].
      rewrite (Hframe p pr); [done| |done]. by eapply Hdiff.
  - intros j1 j2 u1 u2 p st st' Hu1 Hu2 Ho1 Ho2.
    destruct (decide (j1 = i)) as [->|Hj1]; destruct (decide (j2 = i)) as [->|Hj2];
      [done| | |].
    + rewrite list_lookup_insert_eq in Hu1 by done. injection Hu1 as <-.
      apply Hother in Hu2; [|done].
      cbn [t_rest t'] in Ho1. rewrite Hown' in Ho1.
      destruct (Hfresh p st Ho1) as [Hsame|Hnone].
      * by destruct (Hdiff j2 u2 p st' Hj2 Hu2 Ho2).
      * pose proof (Hstate j2 u2 p st' Hu2 Ho2) as Hold. by rewrite Hnone in Hold.
    + rewrite list_lookup_insert_eq in Hu2 by done. injection Hu2 as <-.
      apply Hother in Hu1; [|done].
      cbn [t_rest t'] in Ho2. rewrite Hown' in Ho2.
      destruct (Hfresh p st' Ho2) as [Hsame|Hnone].
      * by destruct (Hdiff j1 u1 p st Hj1 Hu1 Ho1).
      * pose proof (Hstate j1 u1 p st Hu1 Ho1) as Hold. by rewrite Hnone in Hold.
    + apply Hother in Hu1; [|done]. apply Hother in Hu2; [|done].
      by eapply Hinj.
  - intros q Hq. destruct (Hlv q Hq) as [Hmine|[Hold Hne]].
    + destruct (next_owned o r) as [[q' st]|] eqn:Hn; [|done].
      injection Hmine as ->. exists i, t', st.
      split; [by rewrite list_lookup_insert_eq|]. cbn [t_rest t']. by rewrite Hown'.
    + destruct (Hlive q Hold) as (j & u & st & Hu & Ho).
      assert (j <> i) as Hj.
      { intros ->. rewrite Hi in Hu. injection Hu as <-.
        rewrite Hrest in Ho. cbn [owned] in Ho. by rewrite Ho in Hne. }
      exists j, u, st. split; [by rewrite list_lookup_insert_ne|done].
Qed.

Lemma process_invariant_reachable w reqs s :
  Forall (fun pr => live pr = false) (procs w) ->
  Forall (fun p => encodable (stdin p.2) = true) reqs ->
  rtc sys_step (initial w reqs) s -> process_invariant s.
Proof.
  intros Hdead Henc H. revert s H. apply rtc_ind_r.
  - by apply process_invariant_initial.
  - intros s1 s2 _ Hst Hinv. by eapply process_invariant_step.
Qed.

Lemma omap_length_le_filter {X Y} (f : X -> option Y) (Q : X -> Prop)
    `{!forall x, Decision (Q x)} (l : list X) :
  (forall x, is_Some (f x) -> Q x) ->
  (length (omap f l) <= length (filter Q l))%nat.
Proof.
  intros Hf. induction l as [|x l IH]; [done|].
  cbn [omap list_omap]. rewrite filter_cons.
  destruct (f x) as [y|] eqn:Hy.
  - rewrite decide_True by (apply Hf; by rewrite Hy). cbn [length]. fold (omap f l). lia.
  - fold (omap f l). case_decide; cbn [length]; lia.
Qed.

Lemma live_pids_NoDup w : NoDup (live_pids w).
Proof. apply NoDup_filter, NoDup_seq. Qed.

Lemma executing_bounded w reqs s :
  rtc sys_step (initial w reqs) s ->
  (length (filter (fun t => executing t = true) s.2) <= POOL_capacity)%nat.
Proof.
  intros Hreach.
  destruct (gate_invariant_reachable _ _ _ Hreach) as [Hsum Hall].
  pose proof (running_le_held s.2) as Hrun.
  etrans; [|etrans; [exact Hrun|lia]]. unfold running.
  apply filter_length_mono. eapply Forall_impl; [exact Hall|].
  intros t Hg Hexec. unfold in_gate. by rewrite (gated_executing t Hg Hexec).
Qed.

(** The live processes are held by executing requests, one each. *)
Lemma live_le_executing w reqs s :
  Forall (fun pr => live pr = false) (procs w) ->
  Forall (fun p => encodable (stdin p.2) = true) reqs ->
  rtc sys_step (initial w reqs) s ->
  (forall q, q ∈ live_pids s.1 ->
     exists i t st, s.2 !! i = Some t /\ executing t = true /\
                    owned (t_rest t) = Some (q, st)) /\
  (length (live_pids s.1) <= length (filter (fun t => executing t = true) s.2))%nat.
Proof.
  intros Hdead Henc Hreach.
  destruct (process_invariant_reachable _ _ _ Hdead Henc Hreach)
    as (_ & _ & _ & Hlive).
  assert (forall t : Task, is_Some (fst <$> owned (t_rest t)) -> executing t = true)
    as Hexec.
  { intros t [q Hq]. unfold executing. destruct (t_rest t) as [x|e|o k]; [done|done|].
    by destruct o. }
  assert (forall q, q ∈ live_pids s.1 ->
            live <$> procs s.1 !! q = Some true) as Hin.
  { intros q Hq. unfold live_pids in Hq. by apply list_elem_of_filter in Hq as [Hq _]. }
  split.
  - intros q Hq. destruct (Hlive q (Hin q Hq)) as (i & t & st & Hi & Ho).
    exists i, t, st. split; [done|]. split; [|done]. apply Hexec. by rewrite Ho.
  - etrans; [|apply (omap_length_le_filter (fun t => fst <$> owned (t_rest t)));
               exact Hexec].
    apply submseteq_length, NoDup_submseteq; [apply live_pids_NoDup|].
    intros q Hq. destruct (Hlive q (Hin q Hq)) as (i & t & st & Hi & Ho).
    apply list_elem_of_omap. exists t. split; [by eapply list_elem_of_lookup_2|].
    by rewrite Ho.
Qed.

(** ** The ways a request can go *)

Lemma run_code_suspended orc req w :
  language req = "python" -> permits w = 0%nat ->
  exec orc (run_code req) w = (Suspended, w).
Proof. intros Hl Hp. rewrite run_code_python by done. by rewrite Hp. Qed.

Lemma run_code_cases orc req w :
  language req <> "python" \/
  (language req = "python" /\ permits w = 0%nat) \/
  (language req = "python" /\ permits w <> 0%nat /\ encodable (code req) = false) \/
  (language req = "python" /\ permits w <> 0%nat /\ encodable (code req) = true /\
   exists e, spawn_error orc = Some e) \/
  (language req = "python" /\ permits w <> 0%nat /\ encodable (code req) = true /\
   spawn_error orc = None /\ encodable (stdin req) = false) \/
  (language req = "python" /\ permits w <> 0%nat /\ encodable (code req) = true /\
   spawn_error orc = None /\ encodable (stdin req) = true /\
   exits_in_time (behaviour orc) (run_timeout req) = true) \/
  (language req = "python" /\ permits w <> 0%nat /\ encodable (code req) = true /\
   spawn_error orc = None /\ encodable (stdin req) = true /\
   exits_in_time (behaviour orc) (run_timeout req) = false).
Proof.
  destruct (decide (language req = "python")) as [Hl|Hl]; [|by left].
  destruct (decide (permits w = 0%nat)) as [Hp|Hp]; [by right; left|].
  destruct (encodable (code req)) eqn:Hc; [|by right; right; left].
  destruct (spawn_error orc) as [e|] eqn:Hs; [right; right; right; left; eauto|].
  destruct (encodable (stdin req)) eqn:He; [|by right; right; right; right; left].
  destruct (exits_in_time (behaviour orc) (run_timeout req)) eqn:Hx;
    [right; right; right; right; right; left
    |right; right; right; right; right; right]; done.
Qed.

(** ** Counting live processes *)

Lemma filter_ext_in {X} (P Q : X -> Prop)
    `{!forall x, Decision (P x)} `{!forall x, Decision (Q x)} (l : list X) :
  (forall x, x ∈ l -> P x <-> Q x) -> filter P l = filter Q l.
Proof.
  induction l as [|x l IH]; intros Hl; [done|].
  rewrite !filter_cons.
  rewrite IH by (intros y Hy; apply Hl; by right).
  pose proof (Hl x ltac:(by left)) as Hx.
  repeat case_decide; tauto || done.
Qed.

Lemma live_pids_snoc w w' pr :
  procs w' = (procs w ++ [pr])%list ->
  live_pids w' = (live_pids w ++ if live pr then [length (procs w)] else [])%list.
Proof.
  intros Hpr. unfold live_pids. rewrite Hpr, length_app. cbn [length].
  rewrite Nat.add_1_r, seq_S, filter_app. cbn [Nat.add]. f_equal.
  - apply filter_ext_in. intros q Hq. apply elem_of_seq in Hq.
    by rewrite lookup_app_l by lia.
  - rewrite filter_cons, filter_nil, lookup_last. cbn.
    destruct (live pr); by case_decide.
Qed.

Lemma live_pids_same w w' : procs w' = procs w -> live_pids w' = live_pids w.
Proof. unfold live_pids. by intros ->. Qed.

(** What one request adds to the live processes. *)
Lemma one_request_live orc req w :
  permits w <> 0%nat ->
  let w' := (exec orc (run_code req) w).2 in
  permits w' = permits w /\
  live_pids w' =
    (live_pids w ++ if orphans (orc, req) then [length (procs w)] else [])%list.
Proof.
  intros Hp. cbv zeta. unfold orphans. cbn [fst snd].
  destruct (run_code_cases orc req w)
    as [Hl|[[Hl Hp0]|[(Hl & _ & Hc)|[(Hl & _ & Hc & e & Hs)|[(Hl & _ & Hc & Hs & He)
       |[(Hl & _ & Hc & Hs & He & Hx)|(Hl & _ & Hc & Hs & He & Hx)]]]]]].
  - rewrite run_code_rejects by done. cbn [snd].
    destruct (String.eqb_spec (language req) "python") as [|_]; [done|].
    by rewrite app_nil_r.
  - done.
  - rewrite (run_code_write_fails _ _ _ Hl Hp Hc). cbn [snd permits].
    rewrite Hc, andb_false_r, app_nil_r. split; [done|]. by apply live_pids_same.
  - rewrite (run_code_spawn_fails _ _ _ Hl Hp e Hc Hs). cbn [snd permits].
    rewrite Hs, andb_false_r, app_nil_r. split; [done|]. by apply live_pids_same.
  - rewrite (run_code_encode_fails _ _ _ Hl Hp Hc Hs He). cbn [snd permits].
    rewrite Hl, Hc, Hs, He. split; [done|].
    by rewrite (live_pids_snoc w _ (spawned orc w)).
  - rewrite (run_code_exits _ _ _ Hl Hp Hc Hs He Hx). cbn [snd permits].
    rewrite He, andb_false_r. split; [done|].
    by erewrite (live_pids_snoc w) by reflexivity.
  - rewrite (run_code_overruns _ _ _ Hl Hp Hc Hs He Hx). cbn [snd permits].
    rewrite He, andb_false_r. split; [done|].
    by erewrite (live_pids_snoc w) by reflexivity.
Qed.

Lemma serve_live reqs w :
  permits w <> 0%nat ->
  permits (serve reqs w) = permits w /\
  length (live_pids (serve reqs w)) =
    (length (live_pids w) + length (List.filter orphans reqs))%nat.
Proof.
  revert w. induction reqs as [|[orc req] reqs IH]; intros w Hp.
  - cbn. split; [done|]. lia.
  - cbn [serve List.filter].
    destruct (one_request_live orc req w Hp) as (Hp1 & Hl1).
    destruct (IH (exec orc (run_code req) w).2) as (Hp2 & Hl2); [by rewrite Hp1|].
    split; [by rewrite Hp2|].
    rewrite Hl2, Hl1, length_app.
    destruct (orphans (orc, req)); cbn [length]; lia.
Qed.

(** ** One request run to its end, as an interleaving *)

(** Running one task to its end while the others wait is one of the
    interleavings of the service. *)
Lemma exec_run_task orc (m : coro RunCodeResponse) h w ts i r w' :
  ts !! i = Some {| t_oracle := orc; t_held := h; t_rest := m |} ->
  exec orc m w = (Returned r, w') ->
  exists h',
    rtc sys_step (w, ts)
      (w', <[i := {| t_oracle := orc; t_held := h'; t_rest := Ret r |}]> ts).
Proof.
  revert h w ts. induction m as [a|e|o k IH]; intros h w ts Hi Hex.
  - injection Hex as <- <-. exists h. by rewrite list_insert_id.
  - done.
  - cbn [exec] in Hex.
    destruct (handle orc o w) as [[x w0]|] eqn:Hh; [|done].
    destruct (IH x (held_after o h) (log o w0)
                (<[i := {| t_oracle := orc; t_held := held_after o h;
                           t_rest := k x |}]> ts)) as [h' Hreach].
    { apply list_lookup_insert_eq. by eapply lookup_lt_Some. }
    { exact Hex. }
    exists h'. rewrite list_insert_insert_eq in Hreach.
    eapply rtc_l; [|exact Hreach].
    eapply sys_step_task; [exact Hi|].
    unfold task_step. cbn [t_rest t_oracle t_held]. by rewrite Hh.
Qed.

(** ** The claims *)

(** C1. A request that passes validation creates exactly one workspace
    directory and writes the submitted source to the single file [main.py]
    in it.  The directory is removed again whenever the request gets as far
    as waiting for its process (normal exit, non-zero exit, undecodable
    output, timeout).  When the spawn fails the directory is never removed:
    it is still on the host, with [main.py] in it, after the handler has
    ended.  The same happens when the source or the stdin text does not
    encode. *)
Theorem workspace_lifecycle orc req w :
  language req = "python" -> permits w <> 0%nat ->
  let w' := (exec orc (run_code req) w).2 in
  let wd := workdir_of orc w in
  let written := if encodable (code req) then code req else "" in
  fs w !! wd = None /\
  count is_mkdtemp (events_since w w') = 1%nat /\
  count is_write_text (events_since w w') = 1%nat /\
  WriteText wd "main.py" (code req) ∈ events_since w w' /\
  match spawn_error orc with
  | None =>
      if encodable (code req) && encodable (stdin req)
      then count (is_rmtree_of wd) (events_since w w') = 1%nat /\ fs w' = fs w
      else count (is_rmtree_of wd) (events_since w w') = 0%nat /\
           fs w' = <[wd := {[ "main.py" := written ]}]> (fs w)
  | Some _ =>
      count (is_rmtree_of wd) (events_since w w') = 0%nat /\
      fs w' = <[wd := {[ "main.py" := written ]}]> (fs w)
  end.
Proof.
  intros Hl Hp. cbv zeta. split; [apply fresh_workdir|].
  destruct (encodable (code req)) eqn:Hc; cbn [andb].
  - destruct (spawn_error orc) as [e|] eqn:Hs.
    + rewrite (run_code_spawn_fails _ _ _ Hl Hp e Hc Hs). cbn [snd fs].
      erewrite events_since_app by reflexivity.
      split; [done|]. split; [done|]. split; [|done].
      unfold spawn_ops. set_solver.
    + destruct (encodable (stdin req)) eqn:He;
        [destruct (exits_in_time (behaviour orc) (run_timeout req)) eqn:Hx|].
      * rewrite (run_code_exits _ _ _ Hl Hp Hc Hs He Hx). cbn [snd fs].
        erewrite events_since_app by reflexivity.
        split; [done|]. split; [done|]. split; [unfold spawn_ops; set_solver|].
        unfold count, spawn_ops. cbn [app List.filter is_rmtree_of length].
        by rewrite bool_decide_eq_true_2.
      * rewrite (run_code_overruns _ _ _ Hl Hp Hc Hs He Hx). cbn [snd fs].
        erewrite events_since_app by reflexivity.
        split; [done|]. split; [done|]. split; [unfold spawn_ops; set_solver|].
        unfold count, spawn_ops. cbn [app List.filter is_rmtree_of length].
        by rewrite bool_decide_eq_true_2.
      * rewrite (run_code_encode_fails _ _ _ Hl Hp Hc Hs He). cbn [snd fs].
        erewrite events_since_app by reflexivity.
        split; [done|]. split; [done|]. split; [|done].
        unfold spawn_ops. set_solver.
  - rewrite (run_code_write_fails _ _ _ Hl Hp Hc). cbn [snd fs].
    erewrite events_since_app by reflexivity.
    split; [done|]. split; [done|]. split; [unfold write_ops; set_solver|].
    by destruct (spawn_error orc).
Qed.

(** C2, as amended.  If the sandbox process cannot be spawned, the exception
    of the spawn leaves the handler as it is: no response is built, so no
    status at all is delivered for the request.  (The spawn is attempted
    once the source has been written to [main.py].) *)
Theorem spawn_failure_propagates orc req w e :
  language req = "python" -> permits w <> 0%nat ->
  spawn_error orc = Some e ->
  (encodable (code req) = true -> (exec orc (run_code req) w).1 = Raised e) /\
  (forall r, (exec orc (run_code req) w).1 <> Returned r).
Proof.
  intros Hl Hp Hs. destruct (encodable (code req)) eqn:Hc.
  - by rewrite (run_code_spawn_fails _ _ _ Hl Hp e Hc Hs).
  - by rewrite (run_code_write_fails _ _ _ Hl Hp Hc).
Qed.



(** C5. A request whose language is not ["python"] is rejected with
    [HTTPException(400)] and nothing else happens: the host is left exactly
    as it was, so no permit was taken, no directory made, no process
    spawned and no operation performed. *)
Theorem unsupported_language_rejected orc req w :
  language req <> "python" ->
  exec orc (run_code req) w =
    (Raised (HTTPException 400 "Only Python is supported in this minimal demo."), w)
  /\ events_since w (exec orc (run_code req) w).2 = [].
Proof.
  intros Hl. rewrite (run_code_rejects _ _ _ Hl). split; [done|].
  cbn [snd]. apply events_since_app. by rewrite app_nil_r.
Qed.

(** C6. A request that acquires a permit always comes to an end (it is not
    left suspended), acquires once, releases once, as its last operation,
    and leaves [POOL] at the value it found, whether the process exited,
    timed out or could not be spawned.  With any number of requests in
    flight, in any interleaving, the permits still free and the permits held
    add up to the capacity, no request holds more than one, a request is
    executing only while it holds its permit, and neither the requests inside
    the gate nor the executing ones ever outnumber the capacity.  When the
    stdin text of every request encodes, the processes spawned and not yet
    reaped never outnumber the executing requests, so never the capacity.
    A request whose stdin text does not encode gives its permit back while
    its process is still running: after any sequence of requests, handled
    one after the other, every permit is free and the host holds one more
    live process for each such request, with no bound. *)
Theorem permit_accounting :
  (forall orc req w,
     language req = "python" -> permits w <> 0%nat ->
     let res := (exec orc (run_code req) w).1 in
     let w' := (exec orc (run_code req) w).2 in
     res <> Suspended /\
     permits w' = permits w /\
     count is_acquire (events_since w w') = 1%nat /\
     count is_release (events_since w w') = 1%nat /\
     last (events_since w w') = Some Release) /\
  (forall w reqs s,
     rtc sys_step (initial w reqs) s ->
     (permits s.1 + sum_list (t_held <$> s.2) = POOL_capacity)%nat /\
     Forall (fun t => (t_held t <= 1)%nat) s.2 /\
     Forall (fun t => executing t = true -> t_held t = 1%nat) s.2 /\
     (running s.2 <= POOL_capacity)%nat /\
     (length (filter (fun t => executing t = true) s.2) <= POOL_capacity)%nat) /\
  (forall w reqs s,
     Forall (fun pr => live pr = false) (procs w) ->
     Forall (fun p => encodable (stdin p.2) = true) reqs ->
     rtc sys_step (initial w reqs) s ->
     (length (live_pids s.1) <=
        length (filter (fun t => executing t = true) s.2))%nat /\
     (length (live_pids s.1) <= POOL_capacity)%nat) /\
  (forall reqs w,
     permits w <> 0%nat ->
     permits (serve reqs w) = permits w /\
     length (live_pids (serve reqs w)) =
       (length (live_pids w) + length (List.filter orphans reqs))%nat).
Proof.
  split; [|split; [|split]].
  - intros orc req w Hl Hp. cbv zeta.
    destruct (run_code_cases orc req w)
      as [?|[[_ ?]|[(_ & _ & Hc)|[(_ & _ & Hc & e & Hs)|[(_ & _ & Hc & Hs & He)
         |[(_ & _ & Hc & Hs & He & Hx)|(_ & _ & Hc & Hs & He & Hx)]]]]]];
      [done|done| | | | |].
    + rewrite (run_code_write_fails _ _ _ Hl Hp Hc). cbn [fst snd permits].
      erewrite events_since_app by reflexivity. done.
    + rewrite (run_code_spawn_fails _ _ _ Hl Hp e Hc Hs). cbn [fst snd permits].
      erewrite events_since_app by reflexivity. done.
    + rewrite (run_code_encode_fails _ _ _ Hl Hp Hc Hs He). cbn [fst snd permits].
      erewrite events_since_app by reflexivity. done.
    + rewrite (run_code_exits _ _ _ Hl Hp Hc Hs He Hx). cbn [fst snd permits].
      erewrite events_since_app by reflexivity.
      split; [|done]. unfold conclude. by repeat case_match.
    + rewrite (run_code_overruns _ _ _ Hl Hp Hc Hs He Hx). cbn [fst snd permits].
      erewrite events_since_app by reflexivity. done.
  - intros w reqs s Hreach.
    destruct (gate_invariant_reachable _ _ _ Hreach) as [Hsum Hall].
    pose proof (running_le_held s.2) as Hrun.
    assert (Forall (fun t => executing t = true -> t_held t = 1%nat) s.2) as Hex.
    { eapply Forall_impl; [exact Hall|]. intros t. apply gated_executing. }
    split; [done|]. split; [|split; [done|split; [lia|]]].
    + eapply Forall_impl; [exact Hall|]. intros t. apply gated_le_1.
    + by eapply executing_bounded.
  - intros w reqs s Hdead Henc Hreach.
    destruct (live_le_executing _ _ _ Hdead Henc Hreach) as [_ Hle].
    split; [done|]. etrans; [exact Hle|]. by eapply executing_bounded.
  - apply serve_live.
Qed.

(** C7. The environment the sandbox process is spawned with holds, for each
    of PATH, LANG, LC_ALL, PYTHONIOENCODING and TERM, the value the host
    environment gives it, if any, and nothing for any other name.  (The
    process is spawned once the source has been written to [main.py].) *)
Theorem sandbox_environment orc req w :
  language req = "python" -> permits w <> 0%nat -> spawn_error orc = None ->
  encodable (code req) = true ->
  let w' := (exec orc (run_code req) w).2 in
  exists pr,
    procs w' !! length (procs w) = Some pr /\
    CreateSubprocessExec (p_cmd pr) (p_cwd pr) (p_env pr) ∈ events_since w w' /\
    forall k : string,
      p_env pr !! k =
      if decide (k ∈ ["PATH"; "LANG"; "LC_ALL"; "PYTHONIOENCODING"; "TERM"])
      then os_environ w !! k else None.
Proof.
  intros Hl Hp Hs Hc. cbv zeta.
  destruct (encodable (stdin req)) eqn:He;
    [destruct (exits_in_time (behaviour orc) (run_timeout req)) eqn:Hx|].
  - rewrite (run_code_exits _ _ _ Hl Hp Hc Hs He Hx). cbn [snd procs].
    erewrite events_since_app by reflexivity. rewrite lookup_last.
    eexists; split; [reflexivity|]. cbn [set_state set_input p_env p_cmd p_cwd spawned new_process].
    split; [|apply clean_env_lookup].
    unfold spawn_ops. set_solver.
  - rewrite (run_code_overruns _ _ _ Hl Hp Hc Hs He Hx). cbn [snd procs].
    erewrite events_since_app by reflexivity. rewrite lookup_last.
    eexists; split; [reflexivity|]. cbn [set_state set_input p_env p_cmd p_cwd spawned new_process].
    split; [|apply clean_env_lookup].
    unfold spawn_ops. set_solver.
  - rewrite (run_code_encode_fails _ _ _ Hl Hp Hc Hs He). cbn [snd procs].
    erewrite events_since_app by reflexivity. rewrite lookup_last.
    eexists; split; [reflexivity|]. cbn [p_env p_cmd p_cwd spawned new_process].
    split; [|apply clean_env_lookup].
    unfold spawn_ops. set_solver.
Qed.

(** C8, as amended.  When the process exits before the deadline, the
    [execution_time] of the returned outcome is the constant 0, whatever
    time the process took. *)
Theorem execution_time_is_zero orc req w :
  language req = "python" -> permits w <> 0%nat -> spawn_error orc = None ->
  exits_in_time (behaviour orc) (run_timeout req) = true ->
  let b := behaviour orc in
  let res := (exec orc (run_code req) w).1 in
  (forall r, res = Returned r -> run_result r ≫= execution_time = Some 0%Q) /\
  (encodable (code req) = true -> encodable (stdin req) = true ->
   is_Some (decode (out_bytes b)) -> is_Some (decode (err_bytes b)) ->
   exists r, res = Returned r).
Proof.
  intros Hl Hp Hs Hx. cbv zeta.
  destruct (encodable (code req)) eqn:Hc;
    [destruct (encodable (stdin req)) eqn:He|].
  - rewrite (run_code_exits _ _ _ Hl Hp Hc Hs He Hx). cbn [fst]. unfold conclude. split.
    + intros r. repeat case_match; cbn [answer]; intros [= <-]; done.
    + intros _ _ [o ->] [e ->]. cbn [answer]. by eexists.
  - by rewrite (run_code_encode_fails _ _ _ Hl Hp Hc Hs He).
  - by rewrite (run_code_write_fails _ _ _ Hl Hp Hc).
Qed.

(** C9, as amended.  The stdin text is handed to [communicate] once: as its
    bytes followed by one newline byte when it is non-empty and encodes, as
    no input at all when it is empty.  That is what [communicate] writes to
    the stdin pipe of the process when the deadline is positive, whether the
    process exits in time or not; with a deadline that is not positive
    nothing is written.  A non-empty stdin text that does not encode is
    never sent: the handler raises [UnicodeEncodeError] without calling
    [communicate], and nothing is written to the process. *)
Theorem stdin_piping orc req w :
  language req = "python" -> permits w <> 0%nat -> spawn_error orc = None ->
  encodable (code req) = true ->
  let res := (exec orc (run_code req) w).1 in
  let w' := (exec orc (run_code req) w).2 in
  let p := length (procs w) in
  let sent :=
    if decide (stdin req = "") then None
    else Some (encode (stdin req) ++ ["010"%byte])%list in
  let calls :=
    count (fun o => match o with Communicate _ _ _ => true | _ => false end)
          (events_since w w') in
  (encodable (stdin req) = true ->
   Communicate p sent (run_timeout req) ∈ events_since w w' /\
   calls = 1%nat /\
   p_input <$> procs w' !! p =
     Some (if Qlt_le_dec 0 (run_timeout req) then sent else None)) /\
  (encodable (stdin req) = false ->
   stdin req <> "" /\
   res = Raised UnicodeEncodeError /\
   calls = 0%nat /\
   p_input <$> procs w' !! p = Some None).
Proof.
  intros Hl Hp Hs Hc. cbv zeta. fold (stdin_payload (stdin req)).
  destruct (encodable (stdin req)) eqn:He.
  - split; [|done]. intros _.
    destruct (exits_in_time (behaviour orc) (run_timeout req)) eqn:Hx.
    + rewrite (run_code_exits _ _ _ Hl Hp Hc Hs He Hx). cbn [snd procs].
      erewrite events_since_app by reflexivity. rewrite lookup_last.
      split; [unfold spawn_ops; set_solver|]. split; [done|].
      unfold exits_in_time in Hx. destruct (duration _); [|done].
      by destruct (Qlt_le_dec 0 (run_timeout req)).
    + rewrite (run_code_overruns _ _ _ Hl Hp Hc Hs He Hx). cbn [snd procs].
      erewrite events_since_app by reflexivity. rewrite lookup_last.
      split; [unfold spawn_ops; set_solver|]. done.
  - split; [done|]. intros _.
    rewrite (run_code_encode_fails _ _ _ Hl Hp Hc Hs He). cbn [fst snd procs].
    erewrite events_since_app by reflexivity. rewrite lookup_last.
    split; [|done]. intros Hempty. by rewrite Hempty in He.
Qed.

(** C10. Whatever the host does, a response the handler returns has status
    [Success] or [Failed]; [SandboxError] is never the status of a
    response. *)
Theorem SandboxError_never_returned :
  (forall req,
     returns_only
       (fun r => (resp_status r = Success \/ resp_status r = Failed) /\
                 resp_status r <> SandboxError)
       (run_code req)) /\
  (forall orc req w r,
     (exec orc (run_code req) w).1 = Returned r ->
     (resp_status r = Success \/ resp_status r = Failed) /\
     resp_status r <> SandboxError).
Proof.
  assert (forall q, runner_pair q ->
            (resp_status (respond q) = Success \/ resp_status (respond q) = Failed) /\
            resp_status (respond q) <> SandboxError) as Hq.
  { intros q [->|(rc & o & e & ->)]; cbn.
    - split; [by right|done].
    - destruct (rc =? 0); split; auto; done. }
  assert (forall req,
     returns_only
       (fun r => (resp_status r = Success \/ resp_status r = Failed) /\
                 resp_status r <> SandboxError)
       (run_code req)) as Hall.
  { intros req. eapply returns_only_weaken; [|apply handler_returns].
    intros r (q & Hrq & ->). by apply Hq. }
  split; [exact Hall|].
  intros orc req w r Hr. exact (returns_only_exec _ orc _ w r (Hall req) Hr).
Qed.

(** ** The claims at sample inputs *)

Lemma workspace_lifecycle_witness :
  language sample_request = "python" /\ permits sample_world <> 0%nat /\
  spawn_error no_firejail_oracle <> None /\
  let w' := (exec no_firejail_oracle (run_code sample_request) sample_world).2 in
  let wd := workdir_of no_firejail_oracle sample_world in
  fs sample_world !! wd = None /\
  count is_mkdtemp (events_since sample_world w') = 1%nat /\
  count is_write_text (events_since sample_world w') = 1%nat /\
  WriteText wd "main.py" (code sample_request) ∈ events_since sample_world w' /\
  count (is_rmtree_of wd) (events_since sample_world w') = 0%nat /\
  fs w' = <[wd := {[ "main.py" := code sample_request ]}]> (fs sample_world).
Proof.
  split; [reflexivity|]. split; [vm_compute; discriminate|].
  split; [vm_compute; discriminate|].
  apply (workspace_lifecycle no_firejail_oracle sample_request sample_world);
    [reflexivity|vm_compute; discriminate].
Defined.

(** The spawn fails and no response exists, with [SandboxError] or any other
    status: the claim C2 does not hold of this request. *)
Lemma spawn_failure_yields_no_response :
  ~ exists r,
      (exec no_firejail_oracle (run_code sample_request) sample_world).1 = Returned r /\
      resp_status r = SandboxError.
Proof. intros (r & Hr & _). vm_compute in Hr. discriminate Hr. Qed.

Lemma spawn_failure_propagates_witness :
  language sample_request = "python" /\ permits sample_world <> 0%nat /\
  spawn_error no_firejail_oracle =
    Some (OSError "No such file or directory: 'firejail'") /\
  (exec no_firejail_oracle (run_code sample_request) sample_world).1 =
    Raised (OSError "No such file or directory: 'firejail'").
Proof.
  split; [reflexivity|]. split; [vm_compute; discriminate|].
  split; [reflexivity|].
  apply (spawn_failure_propagates no_firejail_oracle sample_request sample_world);
    [reflexivity|vm_compute; discriminate|reflexivity|vm_compute; reflexivity].
Defined.




Lemma unsupported_language_rejected_witness :
  language ruby_request <> "python" /\
  exec echo_oracle (run_code ruby_request) sample_world =
    (Raised (HTTPException 400 "Only Python is supported in this minimal demo."),
     sample_world).
Proof.
  split; [vm_compute; discriminate|].
  apply (unsupported_language_rejected echo_oracle ruby_request sample_world).
  vm_compute. discriminate.
Defined.

(** Two requests have arrived; the first has entered the gate. *)
Lemma one_inside_reachable :
  exists s,
    rtc sys_step
      (initial sample_world [(sleepy_oracle, sample_request); (echo_oracle, sample_request)])
      s /\
    permits s.1 = 199%nat /\ t_held <$> s.2 = [1%nat; 0%nat].
Proof.
  eexists. split.
  - eapply rtc_l; [|apply rtc_refl].
    apply (sys_step_task _ _ 0%nat (new_task (sleepy_oracle, sample_request)));
      [reflexivity|reflexivity].
  - split; reflexivity.
Defined.

(** Two requests have arrived; the first has entered the gate, made its
    workspace and spawned its process. *)
Lemma one_process_reachable :
  exists s,
    rtc sys_step
      (initial sample_world two_requests)
      s /\
    live_pids s.1 = [0%nat].
Proof.
  eexists. split.
  - do 5 (eapply rtc_l;
            [eapply (sys_step_task _ _ 0%nat); [reflexivity|reflexivity]|]).
    apply rtc_refl.
  - vm_compute. reflexivity.
Defined.

Lemma permit_accounting_witness :
  (let w' := (exec no_firejail_oracle (run_code sample_request) sample_world).2 in
   permits w' = permits sample_world /\
   count is_release (events_since sample_world w') = 1%nat) /\
  (let w' := (exec sleepy_oracle (run_code sample_request) sample_world).2 in
   permits w' = permits sample_world /\
   count is_release (events_since sample_world w') = 1%nat) /\
  (exists s,
     rtc sys_step
       (initial sample_world [(sleepy_oracle, sample_request); (echo_oracle, sample_request)])
       s /\
     running s.2 = 1%nat /\ (running s.2 <= POOL_capacity)%nat) /\
  (exists s,
     rtc sys_step (initial sample_world two_requests) s /\
     live_pids s.1 = [0%nat] /\
     (length (live_pids s.1) <= POOL_capacity)%nat) /\
  (let w' := serve (replicate 201 (sleepy_oracle, surrogate_request)) sample_world in
   permits w' = POOL_capacity /\
   length (live_pids w') = 201%nat).
Proof.
  destruct permit_accounting as (Hone & Hmany & Hlive & Hserve).
  split; [|split; [|split; [|split]]].
  - destruct (Hone no_firejail_oracle sample_request sample_world)
      as (_ & Hp & _ & Hr & _); [reflexivity|vm_compute; discriminate|].
    split; [exact Hp|exact Hr].
  - destruct (Hone sleepy_oracle sample_request sample_world)
      as (_ & Hp & _ & Hr & _); [reflexivity|vm_compute; discriminate|].
    split; [exact Hp|exact Hr].
  - destruct one_inside_reachable as (s & Hs & _ & Hheld).
    exists s. split; [exact Hs|]. split.
    + unfold running. destruct s as [w ts]. cbn [snd] in *.
      destruct ts as [|t1 [|t2 [|t3 ts]]]; try discriminate Hheld.
      injection Hheld as H1 H2. rewrite !filter_cons, filter_nil.
      unfold in_gate. rewrite H1, H2. reflexivity.
    + apply (Hmany sample_world _ s Hs).
  - destruct one_process_reachable as (s & Hs & Hpids).
    exists s. split; [exact Hs|]. split; [exact Hpids|].
    apply (Hlive sample_world two_requests s); [constructor| |exact Hs].
    repeat constructor.
  - destruct (Hserve (replicate 201 (sleepy_oracle, surrogate_request)) sample_world)
      as [Hp Hn]; [vm_compute; discriminate|].
    cbv zeta. split; [exact Hp|]. rewrite Hn. vm_compute. reflexivity.
Defined.

Lemma sandbox_environment_witness :
  language sample_request = "python" /\ permits sample_world <> 0%nat /\
  spawn_error echo_oracle = None /\
  encodable (code sample_request) = true /\
  os_environ sample_world !! "AWS_SECRET_ACCESS_KEY" = Some "hunter2" /\
  exists pr,
    procs (exec echo_oracle (run_code sample_request) sample_world).2 !! 0%nat = Some pr /\
    p_env pr !! "PATH" = Some "/usr/bin" /\
    p_env pr !! "AWS_SECRET_ACCESS_KEY" = None.
Proof.
  split; [reflexivity|]. split; [vm_compute; discriminate|].
  split; [reflexivity|]. split; [vm_compute; reflexivity|].
  split; [vm_compute; reflexivity|].
  destruct (sandbox_environment echo_oracle sample_request sample_world)
    as (pr & Hpr & _ & Henv);
    [reflexivity|vm_compute; discriminate|reflexivity|vm_compute; reflexivity|].
  exists pr. split; [exact Hpr|]. rewrite !Henv. split; vm_compute; reflexivity.
Defined.

(** The process runs for half a second and the response reports 0 seconds:
    the claim C8 does not hold of this request. *)
Lemma execution_time_not_elapsed :
  ~ exists r cr t,
      (exec echo_oracle (run_code sample_request) sample_world).1 = Returned r /\
      duration (behaviour echo_oracle) = Some (1 # 2)%Q /\
      run_result r = Some cr /\ execution_time cr = Some t /\
      (1 # 2 <= t)%Q.
Proof.
  intros (r & cr & t & Hr & _ & Hcr & Ht & Hle).
  vm_compute in Hr. injection Hr as <-.
  cbn in Hcr. injection Hcr as <-. cbn in Ht. injection Ht as <-.
  vm_compute in Hle. by apply Hle.
Qed.

Lemma execution_time_is_zero_witness :
  language sample_request = "python" /\ permits sample_world <> 0%nat /\
  spawn_error echo_oracle = None /\
  exits_in_time (behaviour echo_oracle) (run_timeout sample_request) = true /\
  exists r,
    (exec echo_oracle (run_code sample_request) sample_world).1 = Returned r /\
    run_result r ≫= execution_time = Some 0%Q.
Proof.
  split; [reflexivity|]. split; [vm_compute; discriminate|].
  split; [reflexivity|]. split; [vm_compute; reflexivity|].
  destruct (execution_time_is_zero echo_oracle sample_request sample_world)
    as [Hzero Hret];
    [reflexivity|vm_compute; discriminate|reflexivity|vm_compute; reflexivity|].
  destruct Hret as [r Hr];
    [vm_compute; reflexivity|vm_compute; reflexivity
    |vm_compute; eexists; reflexivity|vm_compute; eexists; reflexivity|].
  exists r. split; [exact Hr|]. apply Hzero, Hr.
Defined.

(** The stdin text is not empty and nothing at all is written to the
    process: the text does not encode, or the deadline is not positive.  The
    claim C9 does not hold of these requests. *)
Lemma nonempty_stdin_not_sent :
  (stdin surrogate_request <> "" /\
   spawn_error sleepy_oracle = None /\
   ~ exists sent,
       p_input <$> procs (exec sleepy_oracle (run_code surrogate_request)
                            sample_world).2 !! 0%nat = Some (Some sent)) /\
  (stdin zero_timeout_request <> "" /\
   spawn_error echo_oracle = None /\
   ~ exists sent,
       p_input <$> procs (exec echo_oracle (run_code zero_timeout_request)
                            sample_world).2 !! 0%nat = Some (Some sent)).
Proof.
  split; (split; [discriminate|]; split; [reflexivity|]);
    intros (sent & Hs); vm_compute in Hs; discriminate Hs.
Qed.

Lemma stdin_piping_witness :
  language sample_request = "python" /\ permits sample_world <> 0%nat /\
  spawn_error echo_oracle = None /\
  encodable (code sample_request) = true /\
  encodable (stdin sample_request) = true /\
  stdin sample_request = "5" /\
  p_input <$> procs (exec echo_oracle (run_code sample_request) sample_world).2 !! 0%nat
    = Some (Some ["5"%byte; "010"%byte]) /\
  encodable (stdin surrogate_request) = false /\
  (exec sleepy_oracle (run_code surrogate_request) sample_world).1
    = Raised UnicodeEncodeError.
Proof.
  split; [reflexivity|]. split; [vm_compute; discriminate|].
  split; [reflexivity|]. split; [vm_compute; reflexivity|].
  split; [vm_compute; reflexivity|]. split; [reflexivity|].
  split; [|split; [vm_compute; reflexivity|]].
  - apply (stdin_piping echo_oracle sample_request sample_world);
      [reflexivity|vm_compute; discriminate|reflexivity|vm_compute; reflexivity
      |vm_compute; reflexivity].
  - apply (stdin_piping sleepy_oracle surrogate_request sample_world);
      [reflexivity|vm_compute; discriminate|reflexivity|vm_compute; reflexivity
      |vm_compute; reflexivity].
Defined.

Lemma SandboxError_never_returned_witness :
  exists r,
    (exec crash_oracle (run_code sample_request) sample_world).1 = Returned r /\
    (resp_status r = Success \/ resp_status r = Failed) /\
    resp_status r <> SandboxError.
Proof.
  eexists. split; [vm_compute; reflexivity|].
  apply (proj2 SandboxError_never_returned crash_oracle sample_request sample_world).
  vm_compute. reflexivity.
Defined.

(** * Further properties of the handler *)

(** X1. The sandbox process is started in the workspace directory with the
    command line [firejail --quiet --private=<workspace> --net=none --
    python3 main.py]: the network is always switched off, and neither the
    submitted code nor the stdin text is part of the command line. *)
Theorem spawn_command orc req w :
  language req = "python" -> permits w <> 0%nat -> spawn_error orc = None ->
  encodable (code req) = true ->
  let w' := (exec orc (run_code req) w).2 in
  let wd := workdir_of orc w in
  exists pr,
    procs w' !! length (procs w) = Some pr /\
    p_cwd pr = wd /\
    p_cmd pr = ["firejail"; "--quiet"; "--private=" ++ wd; "--net=none"; "--";
                "python3"; "main.py"] /\
    forall req2,
      language req2 = "python" -> encodable (code req2) = true ->
      p_cmd <$> procs (exec orc (run_code req2) w).2 !! length (procs w)
        = Some (p_cmd pr).
Proof.
  intros Hl Hp Hs Hc. cbv zeta.
  assert (forall rq, language rq = "python" -> encodable (code rq) = true ->
    exists pr, procs (exec orc (run_code rq) w).2 !! length (procs w) = Some pr /\
      p_cwd pr = workdir_of orc w /\
      p_cmd pr = firejail_cmd (workdir_of orc w) "main.py") as Hall.
  { intros rq Hrq Hcq.
    destruct (encodable (stdin rq)) eqn:He;
      [destruct (exits_in_time (behaviour orc) (run_timeout rq)) eqn:Hx|].
    - rewrite (run_code_exits _ _ _ Hrq Hp Hcq Hs He Hx). cbn [snd procs].
      rewrite lookup_last. by eexists.
    - rewrite (run_code_overruns _ _ _ Hrq Hp Hcq Hs He Hx). cbn [snd procs].
      rewrite lookup_last. by eexists.
    - rewrite (run_code_encode_fails _ _ _ Hrq Hp Hcq Hs He). cbn [snd procs].
      rewrite lookup_last. by eexists. }
  destruct (Hall req Hl Hc) as (pr & Hpr & Hcwd & Hcmd).
  exists pr. split; [done|]. split; [done|]. split; [done|].
  intros req2 Hl2 Hc2. destruct (Hall req2 Hl2 Hc2) as (pr2 & Hpr2 & _ & Hcmd2).
  rewrite Hpr2. cbn. congruence.
Qed.

(** X2. When the process exits in time but its stdout or its stderr is not
    valid UTF-8, the handler raises [UnicodeDecodeError] and returns no
    response; the workspace has been removed and the permit given back all
    the same, and the process has been reaped. *)
Theorem undecodable_output orc req w :
  language req = "python" -> permits w <> 0%nat -> spawn_error orc = None ->
  encodable (code req) = true -> encodable (stdin req) = true ->
  exits_in_time (behaviour orc) (run_timeout req) = true ->
  decode (out_bytes (behaviour orc)) = None \/
  decode (err_bytes (behaviour orc)) = None ->
  let res := (exec orc (run_code req) w).1 in
  let w' := (exec orc (run_code req) w).2 in
  res = Raised UnicodeDecodeError /\
  fs w' = fs w /\
  permits w' = permits w /\
  p_state <$> procs w' !! length (procs w)
    = Some (Terminated (exit_code (behaviour orc))).
Proof.
  intros Hl Hp Hs Hc He Hx Hd. cbv zeta.
  rewrite (run_code_exits _ _ _ Hl Hp Hc Hs He Hx). cbn [fst snd fs permits procs].
  rewrite lookup_last. split; [|done].
  unfold conclude. destruct Hd as [-> | ->]; [done|]. by case_match.
Qed.

(** X3. While no permit is free a request does nothing at all: it is left
    suspended at the gate with the host untouched, and in the interleaved
    service it cannot take a step. *)
Theorem no_permit_no_work orc req w :
  language req = "python" -> permits w = 0%nat ->
  exec orc (run_code req) w = (Suspended, w) /\
  task_step w (new_task (orc, req)) = None.
Proof.
  intros Hl Hp. split; [by apply run_code_suspended|].
  unfold task_step, new_task. cbn [t_rest snd]. unfold run_code.
  rewrite Hl. cbn [String.eqb Ascii.eqb Bool.eqb negb].
  unfold async_with_POOL, mbind, coro_bind. cbn [perform bind handle].
  by rewrite Hp.
Qed.

(** X4. Every response the handler returns has an empty [message], no
    [compile_result], an empty [executor_pod_name], no [files], and a
    [run_result] that is present. *)
Theorem response_fixed_fields orc req w r :
  (exec orc (run_code req) w).1 = Returned r ->
  message r = "" /\ compile_result r = None /\
  executor_pod_name r = Some "" /\ files r = ∅ /\
  is_Some (run_result r).
Proof.
  intros Hr.
  destruct (returns_only_exec _ orc _ w r (handler_returns req) Hr)
    as (q & _ & ->).
  unfold respond. cbn. by repeat split.
Qed.

(** ** Text in and out *)

Lemma decode_encode b s : decode b = Some s -> encode s = b.
Proof.
  unfold decode, encode. case_match; [|done]. intros [= <-].
  apply String.list_byte_of_string_of_list_byte.
Qed.

Lemma utf8_valid_ascii l :
  Forall (fun n => (n <= 127)%N) l -> utf8_valid l = true.
Proof.
  induction 1 as [|n l Hn _ IH]; [done|].
  cbn [utf8_valid]. apply N.leb_le in Hn. by rewrite Hn.
Qed.

Lemma encode_decode_ascii s : ascii_only s -> decode (encode s) = Some s.
Proof.
  intros Hs. unfold decode. rewrite utf8_valid_ascii.
  - unfold encode. by rewrite String.string_of_list_byte_of_string.
  - by apply Forall_fmap.
Qed.

Lemma ascii_only_app s1 s2 : ascii_only s1 -> ascii_only s2 -> ascii_only (s1 ++ s2).
Proof. unfold ascii_only. rewrite encode_app. apply Forall_app_2. Qed.

Lemma ascii_only_encodable s : ascii_only s -> encodable s = true.
Proof. intros Hs. unfold encodable. apply utf8_valid_ascii. by apply Forall_fmap. Qed.

Lemma ascii_only_newline : ascii_only newline.
Proof. unfold ascii_only. vm_compute. repeat constructor; discriminate. Qed.

(** X5. For a process that exits in time with decodable output, the
    [stdout] and [stderr] of the response are the texts whose encodings are
    exactly the bytes the process wrote: nothing is cut or changed. *)
Theorem captured_output orc req w :
  language req = "python" -> permits w <> 0%nat -> spawn_error orc = None ->
  encodable (code req) = true -> encodable (stdin req) = true ->
  exits_in_time (behaviour orc) (run_timeout req) = true ->
  is_Some (decode (out_bytes (behaviour orc))) ->
  is_Some (decode (err_bytes (behaviour orc))) ->
  exists r out err,
    (exec orc (run_code req) w).1 = Returned r /\
    run_result r ≫= stdout = Some out /\
    run_result r ≫= stderr = Some err /\
    encode out = out_bytes (behaviour orc) /\
    encode err = err_bytes (behaviour orc).
Proof.
  intros Hl Hp Hs Hc Hi Hx [o Ho] [e He].
  rewrite (run_code_exits _ _ _ Hl Hp Hc Hs Hi Hx). cbn [fst].
  unfold conclude. rewrite Ho, He. cbn [answer].
  eexists _, o, e. split; [reflexivity|]. cbn.
  split; [done|]. split; [done|]. split; by apply decode_encode.
Qed.

(** X6. A program that writes back to stdout exactly what it was sent on
    stdin, and nothing to stderr, is answered with [Success] and a [stdout]
    equal to the stdin text followed by one newline, for any non-empty ASCII
    stdin text. *)
Theorem echo_round_trip orc req w :
  language req = "python" -> permits w <> 0%nat -> spawn_error orc = None ->
  encodable (code req) = true ->
  exits_in_time (behaviour orc) (run_timeout req) = true ->
  stdin req <> "" -> ascii_only (stdin req) ->
  exit_code (behaviour orc) = 0 ->
  input_bytes (stdin req) = inr (Some (out_bytes (behaviour orc))) ->
  err_bytes (behaviour orc) = [] ->
  exists r,
    (exec orc (run_code req) w).1 = Returned r /\
    resp_status r = Success /\
    run_result r ≫= stdout = Some (stdin req ++ newline) /\
    run_result r ≫= stderr = Some "".
Proof.
  intros Hl Hp Hs Hc Hx Hne Hascii Hrc Hout Herr.
  pose proof (ascii_only_encodable _ Hascii) as He.
  rewrite (run_code_exits _ _ _ Hl Hp Hc Hs He Hx). cbn [fst].
  rewrite (input_bytes_encodable _ He) in Hout. unfold stdin_payload in Hout.
  rewrite decide_False in Hout by done. injection Hout as Hout.
  unfold conclude. rewrite <- Hout, Herr, Hrc.
  rewrite <- encode_newline, <- encode_app.
  rewrite encode_decode_ascii by (apply ascii_only_app; [done|apply ascii_only_newline]).
  change (decode []) with (Some ""). cbn [answer].
  eexists. split; [reflexivity|]. done.
Qed.

(** ** What a request leaves alone *)

(** X7. Whatever happens to a request, every directory of the host other
    than the request's own workspace is left exactly as it was, and the
    workspace is a directory that did not exist before. *)
Theorem other_directories_untouched orc req w d :
  d <> workdir_of orc w ->
  fs (exec orc (run_code req) w).2 !! d = fs w !! d /\
  fs w !! workdir_of orc w = None.
Proof.
  intros Hd. split; [|apply fresh_workdir].
  destruct (run_code_cases orc req w)
    as [Hl|[[Hl Hp]|[(Hl & Hp & Hc)|[(Hl & Hp & Hc & e & Hs)|[(Hl & Hp & Hc & Hs & He)
       |[(Hl & Hp & Hc & Hs & He & Hx)|(Hl & Hp & Hc & Hs & He & Hx)]]]]]].
  - by rewrite run_code_rejects.
  - by rewrite run_code_suspended.
  - rewrite (run_code_write_fails _ _ _ Hl Hp Hc). cbn [snd fs].
    by rewrite lookup_insert_ne.
  - rewrite (run_code_spawn_fails _ _ _ Hl Hp e Hc Hs). cbn [snd fs].
    by rewrite lookup_insert_ne.
  - rewrite (run_code_encode_fails _ _ _ Hl Hp Hc Hs He). cbn [snd fs].
    by rewrite lookup_insert_ne.
  - by rewrite (run_code_exits _ _ _ Hl Hp Hc Hs He Hx).
  - by rewrite (run_code_overruns _ _ _ Hl Hp Hc Hs He Hx).
Qed.

(** X8. A request spawns at most one process and leaves the processes that
    were there before as they were.  It spawns none exactly when its language
    is refused, its source cannot be written or the spawn fails.  When its
    stdin text encodes, the process it spawned has terminated and its exit
    status has been collected by the time the handler ends, by a response or
    by an exception.  When its stdin text does not encode, the process it
    spawned is still running when the handler ends. *)
Theorem spawned_process_fate orc req w :
  (exec orc (run_code req) w).1 <> Suspended ->
  exists l,
    procs (exec orc (run_code req) w).2 = (procs w ++ l)%list /\
    (length l <= 1)%nat /\
    (l = [] <-> language req <> "python" \/ encodable (code req) = false \/
                spawn_error orc <> None) /\
    Forall (fun pr =>
              if encodable (stdin req)
              then exists rc, p_state pr = Terminated rc
              else p_state pr = Running) l.
Proof.
  destruct (run_code_cases orc req w)
    as [Hl|[[Hl Hp]|[(Hl & Hp & Hc)|[(Hl & Hp & Hc & e & Hs)|[(Hl & Hp & Hc & Hs & He)
       |[(Hl & Hp & Hc & Hs & He & Hx)|(Hl & Hp & Hc & Hs & He & Hx)]]]]]].
  - rewrite run_code_rejects by done. intros _. exists [].
    rewrite app_nil_r. repeat split; auto.
  - rewrite run_code_suspended by done. done.
  - rewrite (run_code_write_fails _ _ _ Hl Hp Hc). intros _. exists [].
    cbn [snd procs]. rewrite app_nil_r. repeat split; auto.
  - rewrite (run_code_spawn_fails _ _ _ Hl Hp e Hc Hs). intros _. exists [].
    cbn [snd procs]. rewrite app_nil_r. repeat split; auto.
    intros _. right; right. by rewrite Hs.
  - rewrite (run_code_encode_fails _ _ _ Hl Hp Hc Hs He). intros _. eexists [_].
    cbn [snd procs]. split; [done|]. split; [done|]. split.
    + split; [done|]. intros [?|[?|?]]; congruence.
    + rewrite He. by repeat constructor.
  - rewrite (run_code_exits _ _ _ Hl Hp Hc Hs He Hx). intros _. eexists [_].
    cbn [snd procs]. split; [done|]. split; [done|]. split.
    + split; [done|]. intros [?|[?|?]]; congruence.
    + rewrite He. constructor; [|done]. by eexists.
  - rewrite (run_code_overruns _ _ _ Hl Hp Hc Hs He Hx). intros _. eexists [_].
    cbn [snd procs]. split; [done|]. split; [done|]. split.
    + split; [done|]. intros [?|[?|?]]; congruence.
    + rewrite He. constructor; [|done]. by eexists.
Qed.


(** ** Requests in sequence *)



(** ** Request bodies *)

(** X11. A body without [code] is refused before the handler runs.  A body
    that gives only [code] is handled as Python: the code is written to
    [main.py], nothing is written to the process's stdin, and the deadline is
    3 seconds.  The [compile_timeout] of a body has no effect on what the
    handler does. *)
Theorem body_defaults :
  (forall b, b_code b = None -> validate_body b = None) /\
  (forall c orc w,
     permits w <> 0%nat -> spawn_error orc = None -> encodable c = true ->
     exists req,
       validate_body {| b_code := Some c; b_stdin := None; b_language := None;
                        b_compile_timeout := None; b_run_timeout := None |}
         = Some req /\
       let w' := (exec orc (run_code req) w).2 in
       WriteText (workdir_of orc w) "main.py" c ∈ events_since w w' /\
       Communicate (length (procs w)) None 3%Q ∈ events_since w w') /\
  (forall b b' req req' orc w,
     validate_body b = Some req -> validate_body b' = Some req' ->
     b_code b = b_code b' -> b_stdin b = b_stdin b' ->
     b_language b = b_language b' -> b_run_timeout b = b_run_timeout b' ->
     exec orc (run_code req) w = exec orc (run_code req') w).
Proof.
  split; [|split].
  - intros b Hb. unfold validate_body. by rewrite Hb.
  - intros c orc w Hp Hs Hc.
    set (req := {| code := c; stdin := ""; language := "python";
                   compile_timeout := 1%Q; run_timeout := 3%Q |}).
    exists req. split; [reflexivity|]. cbv zeta.
    destruct (exits_in_time (behaviour orc) (run_timeout req)) eqn:Hx.
    + rewrite (run_code_exits orc req w eq_refl Hp Hc Hs eq_refl Hx). cbn [snd].
      erewrite events_since_app by reflexivity. unfold spawn_ops.
      cbn [code stdin run_timeout req]. change (stdin_payload "") with (@None bytes).
      set_solver.
    + rewrite (run_code_overruns orc req w eq_refl Hp Hc Hs eq_refl Hx). cbn [snd].
      erewrite events_since_app by reflexivity. unfold spawn_ops.
      cbn [code stdin run_timeout req]. change (stdin_payload "") with (@None bytes).
      set_solver.
  - intros b b' req req' orc w Hv Hv' Hc Hi Hl Ht.
    unfold validate_body in Hv, Hv'. rewrite <- Hc in Hv'.
    destruct (b_code b) as [c|]; [|done].
    injection Hv as <-. injection Hv' as <-.
    unfold run_code. cbn [language code run_timeout stdin].
    by rewrite Hi, Hl, Ht.
Qed.

(** ** The processes of requests in flight *)

(** X12. If the service starts with no live process and the stdin text of
    every request encodes, then with any number of requests in flight, in any
    interleaving, every process that has been spawned and not yet reaped
    belongs to a request that is executing, no two to the same request: the
    live sandbox processes never outnumber the executing requests, so never
    the capacity of [POOL]. *)
Theorem live_processes_bounded w reqs s :
  Forall (fun pr => live pr = false) (procs w) ->
  Forall (fun p => encodable (stdin p.2) = true) reqs ->
  rtc sys_step (initial w reqs) s ->
  (forall q, q ∈ live_pids s.1 ->
     exists i t st, s.2 !! i = Some t /\ executing t = true /\
                    owned (t_rest t) = Some (q, st)) /\
  (length (live_pids s.1) <= length (filter (fun t => executing t = true) s.2))%nat /\
  (length (live_pids s.1) <= POOL_capacity)%nat.
Proof.
  intros Hdead Henc Hreach.
  destruct (live_le_executing _ _ _ Hdead Henc Hreach) as [Hown Hle].
  split; [done|]. split; [done|].
  etrans; [exact Hle|]. by eapply executing_bounded.
Qed.

(** ** Requests that have ended, in the interleaved service *)

Lemma leaves_reachable (P : RunCodeResponse -> Prop) w reqs s :
  (forall req, returns_only P (run_code req)) ->
  rtc sys_step (initial w reqs) s ->
  Forall (fun t => returns_only P (t_rest t)) s.2 /\ length s.2 = length reqs.
Proof.
  intros HP H. revert s H. apply rtc_ind_r.
  - cbn [initial snd]. split; [|by rewrite length_fmap].
    apply Forall_fmap, Forall_forall. intros r _. apply HP.
  - intros s1 s2 _ Hst [Hall Hlen].
    destruct Hst as [w1 ts i t w' t' Hi Ht]. cbn [snd] in *.
    split; [|by rewrite length_insert].
    apply Forall_insert; [done|].
    pose proof (Forall_lookup_1 _ _ _ _ Hall Hi) as Hp. cbv beta in Hp.
    unfold task_step in Ht.
    destruct (t_rest t) as [x|e|o k]; [done|done|].
    destruct (handle (t_oracle t) o w1) as [[r w0]|]; [|done].
    injection Ht as <- <-. cbn [t_rest]. apply Hp.
Qed.

(** X13. With any number of requests in flight, in any interleaving, no
    request is lost, a request that has ended holds no permit, whether it
    ended with a response or with an exception, and every response has
    status [Success] or [Failed]. *)
Theorem interleaved_endings w reqs s :
  rtc sys_step (initial w reqs) s ->
  length s.2 = length reqs /\
  Forall (fun t =>
            match t_rest t with
            | Ret r =>
                t_held t = 0%nat /\
                (resp_status r = Success \/ resp_status r = Failed)
            | Raise _ => t_held t = 0%nat
            | Vis _ _ => True
            end) s.2.
Proof.
  intros Hreach.
  destruct (gate_invariant_reachable _ _ _ Hreach) as [_ Hgate].
  destruct (leaves_reachable
              (fun r => resp_status r = Success \/ resp_status r = Failed)
              w reqs s) as [Hleaf Hlen]; [|done|].
  { intros req. eapply returns_only_weaken; [|apply handler_returns].
    intros r (q & [->|(rc & o & e & ->)] & ->); cbn; [by right|].
    destruct (rc =? 0); auto. }
  split; [done|].
  rewrite Forall_forall in Hgate, Hleaf. apply Forall_forall. intros t Ht.
  specialize (Hgate t Ht). specialize (Hleaf t Ht). cbv beta in *.
  destruct (t_rest t) as [r|e|o k]; cbn [gated returns_only] in *; done.
Qed.

(** ** The further properties at sample inputs *)

Lemma spawn_command_witness :
  language sample_request = "python" /\ permits sample_world <> 0%nat /\
  spawn_error echo_oracle = None /\ encodable (code sample_request) = true /\
  exists pr,
    procs (exec echo_oracle (run_code sample_request) sample_world).2 !! 0%nat
      = Some pr /\
    p_cwd pr = workdir_of echo_oracle sample_world /\
    p_cmd pr = ["firejail"; "--quiet";
                "--private=" ++ workdir_of echo_oracle sample_world;
                "--net=none"; "--"; "python3"; "main.py"].
Proof.
  split; [reflexivity|]. split; [vm_compute; discriminate|]. split; [reflexivity|].
  split; [vm_compute; reflexivity|].
  destruct (spawn_command echo_oracle sample_request sample_world)
    as (pr & Hpr & Hcwd & Hcmd & _);
    [reflexivity|vm_compute; discriminate|reflexivity|vm_compute; reflexivity|].
  exists pr. split; [exact Hpr|]. split; [exact Hcwd|exact Hcmd].
Defined.

Lemma undecodable_output_witness :
  language sample_request = "python" /\ permits sample_world <> 0%nat /\
  spawn_error binary_oracle = None /\
  encodable (code sample_request) = true /\
  encodable (stdin sample_request) = true /\
  exits_in_time (behaviour binary_oracle) (run_timeout sample_request) = true /\
  decode (out_bytes (behaviour binary_oracle)) = None /\
  (exec binary_oracle (run_code sample_request) sample_world).1
    = Raised UnicodeDecodeError /\
  fs (exec binary_oracle (run_code sample_request) sample_world).2 = fs sample_world.
Proof.
  split; [reflexivity|]. split; [vm_compute; discriminate|]. split; [reflexivity|].
  split; [vm_compute; reflexivity|]. split; [vm_compute; reflexivity|].
  split; [vm_compute; reflexivity|]. split; [vm_compute; reflexivity|].
  destruct (undecodable_output binary_oracle sample_request sample_world)
    as (Hres & Hfs & _);
    [reflexivity|vm_compute; discriminate|reflexivity|vm_compute; reflexivity
    |vm_compute; reflexivity|vm_compute; reflexivity
    |left; vm_compute; reflexivity|].
  split; [exact Hres|exact Hfs].
Defined.

Lemma no_permit_no_work_witness :
  language sample_request = "python" /\
  permits (set_permits 0 sample_world) = 0%nat /\
  exec echo_oracle (run_code sample_request) (set_permits 0 sample_world)
    = (Suspended, set_permits 0 sample_world).
Proof.
  split; [reflexivity|]. split; [reflexivity|].
  apply (no_permit_no_work echo_oracle sample_request (set_permits 0 sample_world));
    reflexivity.
Defined.

Lemma response_fixed_fields_witness :
  exists r,
    (exec sleepy_oracle (run_code sample_request) sample_world).1 = Returned r /\
    message r = "" /\ compile_result r = None /\
    executor_pod_name r = Some "" /\ files r = ∅ /\ is_Some (run_result r).
Proof.
  eexists. split; [vm_compute; reflexivity|].
  apply (response_fixed_fields sleepy_oracle sample_request sample_world).
  vm_compute. reflexivity.
Defined.

Lemma captured_output_witness :
  language sample_request = "python" /\ permits sample_world <> 0%nat /\
  spawn_error crash_oracle = None /\
  encodable (code sample_request) = true /\
  encodable (stdin sample_request) = true /\
  exits_in_time (behaviour crash_oracle) (run_timeout sample_request) = true /\
  exists r out err,
    (exec crash_oracle (run_code sample_request) sample_world).1 = Returned r /\
    run_result r ≫= stdout = Some out /\
    run_result r ≫= stderr = Some err /\
    encode out = [] /\ encode err = encode "ValueError".
Proof.
  split; [reflexivity|]. split; [vm_compute; discriminate|]. split; [reflexivity|].
  split; [vm_compute; reflexivity|]. split; [vm_compute; reflexivity|].
  split; [vm_compute; reflexivity|].
  apply (captured_output crash_oracle sample_request sample_world);
    [reflexivity|vm_compute; discriminate|reflexivity|vm_compute; reflexivity
    |vm_compute; reflexivity|vm_compute; reflexivity
    |vm_compute; eexists; reflexivity|vm_compute; eexists; reflexivity].
Defined.

Lemma echo_round_trip_witness :
  language sample_request = "python" /\ permits sample_world <> 0%nat /\
  encodable (code sample_request) = true /\
  stdin sample_request = "5" /\
  input_bytes (stdin sample_request) = inr (Some (out_bytes (behaviour echo_oracle))) /\
  exists r,
    (exec echo_oracle (run_code sample_request) sample_world).1 = Returned r /\
    resp_status r = Success /\
    run_result r ≫= stdout = Some ("5" ++ newline) /\
    run_result r ≫= stderr = Some "".
Proof.
  split; [reflexivity|]. split; [vm_compute; discriminate|].
  split; [vm_compute; reflexivity|]. split; [reflexivity|].
  split; [vm_compute; reflexivity|].
  apply (echo_round_trip echo_oracle sample_request sample_world);
    [reflexivity|vm_compute; discriminate|reflexivity|vm_compute; reflexivity
    |vm_compute; reflexivity|discriminate| |reflexivity|vm_compute; reflexivity
    |reflexivity].
  unfold ascii_only. vm_compute. repeat constructor; discriminate.
Defined.

Lemma other_directories_untouched_witness :
  let w := set_fs {[ "/dev/shm/other" := {[ "notes.txt" := "keep" ]} ]} sample_world in
  "/dev/shm/other" <> workdir_of no_firejail_oracle w /\
  fs (exec no_firejail_oracle (run_code sample_request) w).2 !! "/dev/shm/other"
    = Some {[ "notes.txt" := "keep" ]} /\
  fs (exec sleepy_oracle (run_code sample_request) w).2 !! "/dev/shm/other"
    = Some {[ "notes.txt" := "keep" ]}.
Proof.
  cbv zeta. split; [vm_compute; discriminate|]. split.
  - etrans; [|vm_compute; reflexivity].
    apply (other_directories_untouched no_firejail_oracle sample_request).
    vm_compute. discriminate.
  - etrans; [|vm_compute; reflexivity].
    apply (other_directories_untouched sleepy_oracle sample_request).
    vm_compute. discriminate.
Defined.

Lemma spawned_process_fate_witness :
  (exec sleepy_oracle (run_code sample_request) sample_world).1 <> Suspended /\
  (exists l,
     procs (exec sleepy_oracle (run_code sample_request) sample_world).2
       = (procs sample_world ++ l)%list /\
     (length l <= 1)%nat /\
     Forall (fun pr => exists rc, p_state pr = Terminated rc) l) /\
  (exec sleepy_oracle (run_code surrogate_request) sample_world).1 <> Suspended /\
  (exists l,
     procs (exec sleepy_oracle (run_code surrogate_request) sample_world).2
       = (procs sample_world ++ l)%list /\
     l <> [] /\
     Forall (fun pr => p_state pr = Running) l).
Proof.
  split; [vm_compute; discriminate|]. split; [|split; [vm_compute; discriminate|]].
  - destruct (spawned_process_fate sleepy_oracle sample_request sample_world)
      as (l & Hl & Hlen & _ & Hall); [vm_compute; discriminate|].
    exists l. split; [exact Hl|]. split; [exact Hlen|exact Hall].
  - destruct (spawned_process_fate sleepy_oracle surrogate_request sample_world)
      as (l & Hl & _ & Hnil & Hall); [vm_compute; discriminate|].
    exists l. split; [exact Hl|]. split; [|exact Hall].
    intros Hempty. apply Hnil in Hempty.
    vm_compute in Hempty. destruct Hempty as [?|[?|?]]; congruence.
Defined.



Lemma body_defaults_witness :
  permits sample_world <> 0%nat /\ spawn_error echo_oracle = None /\
  encodable "print(1)" = true /\
  exists req,
    validate_body {| b_code := Some "print(1)"; b_stdin := None; b_language := None;
                     b_compile_timeout := None; b_run_timeout := None |} = Some req /\
    Communicate 0%nat None 3%Q ∈
      events_since sample_world (exec echo_oracle (run_code req) sample_world).2.
Proof.
  split; [vm_compute; discriminate|]. split; [reflexivity|].
  split; [vm_compute; reflexivity|].
  destruct (proj1 (proj2 body_defaults) "print(1)" echo_oracle sample_world)
    as (req & Hreq & _ & Hcomm);
    [vm_compute; discriminate|reflexivity|vm_compute; reflexivity|].
  exists req. split; [exact Hreq|exact Hcomm].
Defined.

Lemma live_processes_bounded_witness :
  Forall (fun pr => live pr = false) (procs sample_world) /\
  Forall (fun p => encodable (stdin p.2) = true) two_requests /\
  exists s,
    rtc sys_step
      (initial sample_world two_requests)
      s /\
    live_pids s.1 = [0%nat] /\
    (length (live_pids s.1) <= length (filter (fun t => executing t = true) s.2))%nat /\
    (length (live_pids s.1) <= POOL_capacity)%nat.
Proof.
  split; [constructor|]. split; [repeat constructor|].
  destruct one_process_reachable as (s & Hs & Hlive).
  exists s. split; [exact Hs|]. split; [exact Hlive|].
  apply (live_processes_bounded sample_world two_requests s);
    [constructor|repeat constructor|exact Hs].
Defined.

(** Two requests have arrived; the second has been handled to its end. *)
Lemma one_ended_reachable :
  exists s t r,
    rtc sys_step (initial sample_world two_requests) s /\
    s.2 !! 1%nat = Some t /\ t_rest t = Ret r.
Proof.
  edestruct (exec_run_task echo_oracle (run_code sample_request) 0
              (set_permits POOL_capacity sample_world)
              (new_task <$> two_requests) 1%nat) as [h Hreach];
    [reflexivity|vm_compute; reflexivity|].
  eexists _, _, _. split; [exact Hreach|]. split; reflexivity.
Defined.

Lemma interleaved_endings_witness :
  exists s t r,
    rtc sys_step (initial sample_world two_requests) s /\
    length s.2 = 2%nat /\
    s.2 !! 1%nat = Some t /\ t_rest t = Ret r /\
    t_held t = 0%nat /\ (resp_status r = Success \/ resp_status r = Failed).
Proof.
  destruct one_ended_reachable as (s & t & r & Hs & Ht & Hr).
  exists s, t, r. split; [exact Hs|].
  destruct (interleaved_endings sample_world two_requests s Hs) as [Hlen Hall].
  split; [exact Hlen|]. split; [exact Ht|]. split; [exact Hr|].
  pose proof (Forall_lookup_1 _ _ _ _ Hall Ht) as Hend. cbv beta in Hend.
  rewrite Hr in Hend. exact Hend.
Defined.



(** ** The workspace a request has use for *)

Ltac confined_go :=
  cbn [bind perform eval try_finally try_except_timeout confined op_dir is_mkdtemp
       made mbind coro_bind];
  lazymatch goal with
  | |- True => exact I
  | |- _ /\ _ => split; confined_go
  | |- forall r : _ + _, _ => intros [?|?]; confined_go
  | |- forall d, Some _ = Some _ -> _ => by intros ? [= <-]
  | |- forall d, None = Some _ -> _ => by intros ? [=]
  | |- true = true -> _ => by intros _
  | |- false = true -> _ => by intros [=]
  | |- context [let (_, _) := ?x in _] => destruct x; confined_go
  | |- context [decide (?e = TimeoutError)] =>
      destruct (decide (e = TimeoutError)); confined_go
  | |- context [match decode ?b with _ => _ end] =>
      destruct (decode b); confined_go
  | |- context [input_bytes ?s] => destruct (input_bytes s); confined_go
  end.

Lemma run_code_confined req : confined None (run_code req).
Proof.
  unfold run_code. destruct (negb _); [done|].
  unfold async_with_POOL, _run_in_firejail.
  confined_go.
Qed.

Lemma confined_targets {A} own (m : coro A) d :
  confined own m -> targets m d -> own = Some d.
Proof.
  revert own. induction m as [x|e|o k IH]; intros own; cbn [confined targets];
    [done|done|].
  intros (Hdir & Hmk & Hk) [Ho|(Hn & r & Hr)]; [by apply Hdir|].
  specialize (IH r _ (Hk r) Hr).
  destruct o; try discriminate Hn; cbn [made] in IH; done.
Qed.

(** What one operation does to the directories of the host. *)
Lemma handle_fs orc o w r w' :
  handle orc o w = Some (r, w') ->
  (forall d, made o r = Some d -> fs w !! d = None /\ is_Some (fs w' !! d)) /\
  (forall d, op_dir o <> Some d -> made o r <> Some d -> fs w' !! d = fs w !! d) /\
  (forall d, is_Some (fs w !! d) -> is_rmtree_of d o = false -> is_Some (fs w' !! d)).
Proof.
  intros Hh.
  destruct o; cbn [handle] in Hh; cbn [made op_dir is_rmtree_of];
    try (injection Hh as <- <-; rewrite ?fs_set_procs, ?fs_set_permits; by repeat split).
  - (* Mkdtemp *)
    injection Hh as <- <-. rewrite fs_set_fs.
    set (path := fresh_string_of_set _ _).
    assert (fs w !! path = None) as Hfresh
      by apply not_elem_of_dom, fresh_string_of_set_fresh.
    split; [|split].
    + intros d [= <-]. split; [done|]. by rewrite lookup_insert_eq.
    + intros d _ Hd. rewrite lookup_insert_ne; [done|]. by intros ->.
    + intros d Hd _. rewrite lookup_insert_ne; [done|].
      intros ->. rewrite Hfresh in Hd. by destruct Hd.
  - (* WriteText *)
    destruct (fs w !! dir) as [files|] eqn:Hdir;
      [destruct (encodable data)|]; injection Hh as <- <-; [| |by repeat split];
      (rewrite fs_set_fs; split; [done|]; split;
       [intros d Hd _; rewrite lookup_insert_ne; [done|]; by intros ->
       |intros d Hd _; destruct (decide (dir = d)) as [->|Hne];
        [by rewrite lookup_insert_eq|by rewrite lookup_insert_ne]]).
  - (* CreateSubprocessExec *)
    destruct (spawn_error orc); injection Hh as <- <-;
      rewrite ?fs_set_procs; by repeat split.
  - (* Communicate *)
    repeat case_match; injection Hh as <- <-; rewrite ?fs_set_procs; by repeat split.
  - (* Kill *)
    repeat case_match; injection Hh as <- <-; rewrite ?fs_set_procs; by repeat split.
  - (* Wait *)
    repeat case_match; try discriminate Hh; injection Hh as <- <-;
      rewrite ?fs_set_procs; by repeat split.
  - (* Rmtree *)
    injection Hh as <- <-. rewrite fs_set_fs. split; [done|]. split.
    + intros d Hd _. rewrite lookup_delete_ne; [done|]. by intros ->.
    + intros d Hd Hne. apply bool_decide_eq_false in Hne.
      by rewrite lookup_delete_ne.
  - (* Acquire *)
    destruct (permits w); [done|]. injection Hh as <- <-.
    rewrite fs_set_permits. by repeat split.
Qed.

Lemma workspace_invariant_initial w reqs : workspace_invariant (initial w reqs).
Proof.
  unfold workspace_invariant, initial. cbn [fst snd].
  assert (forall i t d, (new_task <$> reqs) !! i = Some t -> ~ targets (t_rest t) d)
    as Hnone.
  { intros i t d Hi Ht. apply list_lookup_fmap_Some in Hi as (r & -> & _).
    by pose proof (confined_targets _ _ _ (run_code_confined _) Ht). }
  split; [|split].
  - apply Forall_fmap, Forall_forall. intros r _. exists None. apply run_code_confined.
  - intros i t d Hi Ht. by destruct (Hnone _ _ _ Hi Ht).
  - intros i j t u d Hi _ Ht. by destruct (Hnone _ _ _ Hi Ht).
Qed.

(** A step of one task, seen from the directories. *)
Lemma step_directories w ts i t w' t' :
  workspace_invariant (w, ts) ->
  ts !! i = Some t -> task_step w t = Some (w', t') ->
  (exists own, confined own (t_rest t')) /\
  (forall d, targets (t_rest t') d -> is_Some (fs w' !! d)) /\
  (forall d, targets (t_rest t') d ->
     targets (t_rest t) d \/ fs w !! d = None) /\
  (forall j u d, j <> i -> ts !! j = Some u -> targets (t_rest u) d ->
     fs w' !! d = fs w !! d).
Proof.
  intros (Htidy & Hexist & Hinj) Hi Ht. cbn [fst snd] in *.
  unfold task_step in Ht.
  pose proof (Forall_lookup_1 _ _ _ _ Htidy Hi) as [own Hown]. cbv beta in Hown.
  pose proof (Hexist i t) as Hmine. pose proof (fun d => confined_targets own _ d Hown) as Hct.
  destruct (t_rest t) as [x|e|o k] eqn:Hrest; [done|done|].
  destruct (handle (t_oracle t) o w) as [[r w0]|] eqn:Hh; [|done].
  injection Ht as <- <-. cbn [t_rest]. rewrite fs_log.
  destruct (handle_fs _ _ _ _ _ Hh) as (Hmade & Hframe & Hkeep).
  cbn [confined] in Hown. destruct Hown as (Hdir & Hmk & Hk).
  assert (forall d, targets (k r) d ->
            made o r = Some d \/
            (made o r = None /\ is_mkdtemp o = false /\ is_rmtree_of d o = false /\
             targets (Vis o k) d)) as Hnext.
  { intros d Hd. pose proof (confined_targets _ _ _ (Hk r) Hd) as Hc.
    destruct (made o r) as [d'|] eqn:Hm; [left; congruence|right].
    split; [done|].
    assert (is_mkdtemp o = false) as Hnm.
    { destruct (is_mkdtemp o) eqn:Hmkd; [|done].
      rewrite Hmk in Hc by done. by destruct o. }
    split; [done|]. split; [by destruct o|].
    cbn [targets]. right. eauto. }
  split; [eauto|]. split; [|split].
  - intros d Hd. destruct (Hnext d Hd) as [Hm|(_ & _ & Hnr & Hold)].
    + by apply Hmade.
    + apply Hkeep; [|done]. by apply Hmine.
  - intros d Hd. destruct (Hnext d Hd) as [Hm|(_ & _ & _ & Hold)]; [|by left].
    right. by apply Hmade.
  - intros j u d Hj Hu Hd. apply Hframe.
    + intros Ho. apply Hj. apply (Hinj j i u t d Hu Hi Hd).
      rewrite Hrest. cbn [targets]. by left.
    + intros Hm. destruct (Hmade d Hm) as [Hnone _].
      pose proof (Hexist j u d Hu Hd) as Hsome. rewrite Hnone in Hsome.
      by destruct Hsome.
Qed.

Lemma workspace_invariant_step s s' :
  workspace_invariant s -> sys_step s s' -> workspace_invariant s'.
Proof.
  intros Hinv Hstep. destruct Hstep as [w ts i t w' t' Hi Ht].
  destruct (step_directories _ _ _ _ _ _ Hinv Hi Ht)
    as (Hown & Hex & Hnew & Hframe).
  destruct Hinv as (Htidy & Hexist & Hinj). cbn [fst snd] in *.
  assert (i < length ts)%nat as Hlt by by eapply lookup_lt_Some.
  split; [|split]; cbn [fst snd].
  - by apply Forall_insert.
  - intros j u d Hu Hd. destruct (decide (j = i)) as [->|Hj].
    + rewrite list_lookup_insert_eq in Hu by done. injection Hu as <-. by apply Hex.
    + rewrite list_lookup_insert_ne in Hu by done.
      rewrite (Hframe j u d Hj Hu Hd). by eapply Hexist.
  - intros j1 j2 u1 u2 d Hu1 Hu2 Hd1 Hd2.
    destruct (decide (j1 = i)) as [->|Hj1]; destruct (decide (j2 = i)) as [->|Hj2];
      [done| | |].
    + rewrite list_lookup_insert_eq in Hu1 by done. injection Hu1 as <-.
      rewrite list_lookup_insert_ne in Hu2 by done.
      destruct (Hnew d Hd1) as [Hold|Hnone].
      * by destruct (Hj2 (Hinj j2 i u2 t d Hu2 Hi Hd2 Hold)).
      * pose proof (Hexist j2 u2 d Hu2 Hd2) as Hs. rewrite Hnone in Hs. by destruct Hs.
    + rewrite list_lookup_insert_eq in Hu2 by done. injection Hu2 as <-.
      rewrite list_lookup_insert_ne in Hu1 by done.
      destruct (Hnew d Hd2) as [Hold|Hnone].
      * by destruct (Hj1 (Hinj j1 i u1 t d Hu1 Hi Hd1 Hold)).
      * pose proof (Hexist j1 u1 d Hu1 Hd1) as Hs. rewrite Hnone in Hs. by destruct Hs.
    + rewrite list_lookup_insert_ne in Hu1 by done.
      rewrite list_lookup_insert_ne in Hu2 by done. by eapply Hinj.
Qed.

Lemma workspace_invariant_reachable w reqs s :
  rtc sys_step (initial w reqs) s -> workspace_invariant s.
Proof.
  intros H. revert s H. apply rtc_ind_r.
  - apply workspace_invariant_initial.
  - intros s1 s2 _ Hst Hinv. by eapply workspace_invariant_step.
Qed.

(** X15. With any number of requests in flight, in any interleaving: the
    directory a request still writes to or removes exists on the host, no two
    requests have use for the same directory, and a step of one request
    leaves every directory that another request still has use for exactly as
    it was.  A request that has not yet made its directory has use for
    none. *)
Theorem workspace_isolation w reqs s :
  rtc sys_step (initial w reqs) s ->
  (forall i t d,
     s.2 !! i = Some t -> targets (t_rest t) d -> is_Some (fs s.1 !! d)) /\
  (forall i j t u d,
     s.2 !! i = Some t -> s.2 !! j = Some u ->
     targets (t_rest t) d -> targets (t_rest u) d -> i = j) /\
  (forall i t w' t' j u d,
     s.2 !! i = Some t -> task_step s.1 t = Some (w', t') ->
     j <> i -> s.2 !! j = Some u -> targets (t_rest u) d ->
     fs w' !! d = fs s.1 !! d) /\
  (forall req d, ~ targets (run_code req) d).
Proof.
  intros Hreach. pose proof (workspace_invariant_reachable _ _ _ Hreach) as Hinv.
  pose proof Hinv as (_ & Hexist & Hinj).
  split; [done|]. split; [done|]. split.
  - intros i t w' t' j u d Hi Ht Hj Hu Hd. destruct s as [w0 ts]. cbn [fst snd] in *.
    by destruct (step_directories _ _ _ _ _ _ Hinv Hi Ht) as (_ & _ & _ & Hframe);
      eapply Hframe.
  - intros req d Hd. by pose proof (confined_targets _ _ _ (run_code_confined req) Hd).
Qed.

Lemma workspace_isolation_witness :
  exists s,
    rtc sys_step (initial sample_world two_requests) s /\
    (forall i t d,
       s.2 !! i = Some t -> targets (t_rest t) d -> is_Some (fs s.1 !! d)) /\
    (forall i j t u d,
       s.2 !! i = Some t -> s.2 !! j = Some u ->
       targets (t_rest t) d -> targets (t_rest u) d -> i = j).
Proof.
  destruct one_process_reachable as (s & Hs & _).
  exists s. split; [exact Hs|].
  destruct (workspace_isolation sample_world two_requests s Hs) as (H1 & H2 & _).
  split; [exact H1|exact H2].
Defined.
